(** * Peer-to-peer chat over TCP with an HTTP rendezvous server

    A shallow embedding of [stun_server.py] (the Flask registry, with its
    Redis-backed and in-memory stores) and of [peer.py] (handshake, session
    table and the two chat loops), followed by the properties of the
    specification that were checked against them.

    Conventions of the embedding:
    - an instant is an integer number of seconds; every request reads the
      clock once ([now]), so the successive [datetime.now()] calls of one
      request are identified;
    - a timestamp field holds the instant itself: the source stores
      [isoformat()] text and reads it back with [fromisoformat], which
      inverts it;
    - the values carried by request fields are the JSON scalars (null,
      booleans, integers, strings); nested containers and floating point
      numbers as field values are outside the modelled input type;
    - a raised Python exception is an explicit [Raise] result; the state
      reached before the exception is kept, as in the source. *)

From stdpp Require Import gmap strings list fin_maps pretty.
From Stdlib Require Import Ascii ZArith Lia.

Local Open Scope string_scope.
Local Open Scope Z_scope.

(** ** Python values and exceptions *)

Inductive json :=
  | JNull
  | JBool (b : bool)
  | JNum (n : Z)
  | JStr (s : string).

#[global] Instance json_eq_dec : EqDecision json.
Proof. solve_decision. Defined.

(** [str(v)], as used by the f-string [f"peer:{username}"]. *)
Definition py_str (v : json) : string :=
  match v with
  | JNull => "None"
  | JBool true => "True"
  | JBool false => "False"
  | JNum n => pretty n
  | JStr s => s
  end.

(** Truth value of a scalar ([if not username]). *)
Definition truthy (v : json) : bool :=
  match v with
  | JNull => false
  | JBool b => b
  | JNum n => negb (n =? 0)
  | JStr s => negb (String.eqb s "")
  end.

Inductive exn :=
  | TypeError
  | AttributeError
  | KeyError
  | DataError
  | BadRequest.

Inductive result (A : Type) :=
  | Ok (a : A)
  | Raise (e : exn).
Arguments Ok {A} a.
Arguments Raise {A} e.

(** Keys of a Python [dict]: [True] and [1] (and [False] and [0]) hash and
    compare equal, so they name the same slot. *)
Inductive pykey :=
  | KNone
  | KInt (n : Z)
  | KStr (s : string).

#[global] Instance pykey_eq_dec : EqDecision pykey.
Proof. solve_decision. Defined.

#[global] Instance pykey_countable : Countable pykey.
Proof.
  refine (inj_countable'
    (λ k, match k with
          | KNone => inl ()
          | KInt n => inr (inl n)
          | KStr s => inr (inr s)
          end)
    (λ x, match x with
          | inl _ => KNone
          | inr (inl n) => KInt n
          | inr (inr s) => KStr s
          end) _).
  by intros [].
Defined.

Definition dict_key (v : json) : pykey :=
  match v with
  | JNull => KNone
  | JBool b => KInt (if b then 1 else 0)
  | JNum n => KInt n
  | JStr s => KStr s
  end.

(** ** stun_server.py *)

Module Server.

(** The [peer_info] dictionary.  Every path of the source builds it with
    the same six keys and never adds or removes one, so it is a record. *)
Record peer_info := PeerInfo {
  username : json;
  ip_address : json;
  port : json;
  status : string;
  last_seen : Z;
  registered_at : Z
}.

#[global] Instance peer_info_eq_dec : EqDecision peer_info.
Proof. solve_decision. Defined.

Definition set_status (s : string) (p : peer_info) : peer_info :=
  PeerInfo (username p) (ip_address p) (port p) s (last_seen p) (registered_at p).

Definition set_last_seen (t : Z) (p : peer_info) : peer_info :=
  PeerInfo (username p) (ip_address p) (port p) (status p) t (registered_at p).

(** *** The Redis client

    A hash lives under a key together with its expiry deadline, if any.  An
    entry whose deadline has passed is gone for every command, whether or
    not the server has physically reclaimed it; at the instant of the
    deadline itself the key is still served.  [online_peers] is the one
    set the source uses. *)

Record rentry := REntry {
  hash : peer_info;
  deadline : option Z
}.

Record redis := Redis {
  hashes : gmap string rentry;
  online_peers : gset string
}.

Definition live (now : Z) (e : rentry) : bool :=
  match deadline e with
  | None => true
  | Some d => now <=? d
  end.

Definition live_entry (now : Z) (key : string) (r : redis) : option rentry :=
  match hashes r !! key with
  | Some e => if live now e then Some e else None
  | None => None
  end.

(** What redis-py puts on the wire for a value: text and integers are
    accepted, [None] and booleans raise [DataError].  With
    [decode_responses=True] every value read back is text. *)
Definition redis_encode (v : json) : result string :=
  match v with
  | JStr s => Ok s
  | JNum n => Ok (pretty n)
  | JNull | JBool _ => Raise DataError
  end.

Definition encode_mapping (p : peer_info) : result peer_info :=
  match redis_encode (username p), redis_encode (ip_address p), redis_encode (port p) with
  | Ok u, Ok i, Ok q =>
      Ok (PeerInfo (JStr u) (JStr i) (JStr q) (status p) (last_seen p) (registered_at p))
  | Raise e, _, _ => Raise e
  | _, Raise e, _ => Raise e
  | _, _, Raise e => Raise e
  end.

(** [HGETALL]: the empty dictionary (here [None]) when the key is absent. *)
Definition hgetall (now : Z) (key : string) (r : redis) : option peer_info :=
  hash <$> live_entry now key r.

Definition exists_ (now : Z) (key : string) (r : redis) : bool :=
  bool_decide (is_Some (live_entry now key r)).

(** [HSET key mapping=...] with all six fields: overwrites them, keeps the
    deadline of a live key, creates a key without deadline otherwise. *)
Definition hset_mapping (now : Z) (key : string) (p : peer_info) (r : redis)
  : result redis :=
  match encode_mapping p with
  | Raise e => Raise e
  | Ok p' =>
      let d := match live_entry now key r with
               | Some e => deadline e
               | None => None
               end in
      Ok (Redis (<[key := REntry p' d]> (hashes r)) (online_peers r))
  end.

(** [HSET key field value] for the one field [status] or [last_seen].  The
    source issues it only under [exists(key)]; on a live key it rewrites
    the field and keeps the deadline. *)
Definition hset_field (now : Z) (key : string) (f : peer_info → peer_info)
    (r : redis) : redis :=
  match live_entry now key r with
  | Some e => Redis (<[key := REntry (f (hash e)) (deadline e)]> (hashes r)) (online_peers r)
  | None => r
  end.

Definition expire (now : Z) (key : string) (ttl : Z) (r : redis) : redis :=
  match live_entry now key r with
  | Some e => Redis (<[key := REntry (hash e) (Some (now + ttl))]> (hashes r)) (online_peers r)
  | None => r
  end.

Definition sadd (member : json) (r : redis) : result redis :=
  match redis_encode member with
  | Ok m => Ok (Redis (hashes r) ({[m]} ∪ online_peers r))
  | Raise e => Raise e
  end.

Definition srem (member : json) (r : redis) : result redis :=
  match redis_encode member with
  | Ok m => Ok (Redis (hashes r) (online_peers r ∖ {[m]}))
  | Raise e => Raise e
  end.

Definition smembers (r : redis) : list string := elements (online_peers r).

(** *** class STUNServer *)

(** [self.redis_client] is either a client or [None]; in the second case
    the object carries the [self.peers] dictionary. *)
Inductive STUNServer :=
  | RedisBacked (r : redis)
  | InMemory (peers : gmap pykey peer_info).

Definition peer_key (username : json) : string := "peer:" +:+ py_str username.

Definition register_peer (now : Z) (username ip_address port : json)
    (self : STUNServer) : STUNServer * result peer_info :=
  let peer_info := PeerInfo username ip_address port "online" now now in
  match self with
  | RedisBacked r =>
      let key := peer_key username in
      match hset_mapping now key peer_info r with
      | Raise e => (self, Raise e)
      | Ok r1 =>
          let r2 := expire now key 3600 r1 in
          match sadd username r2 with
          | Raise e => (RedisBacked r2, Raise e)
          | Ok r3 => (RedisBacked r3, Ok peer_info)
          end
      end
  | InMemory peers =>
      (InMemory (<[dict_key username := peer_info]> peers), Ok peer_info)
  end.

(** The order of the list is that of the map, not the insertion order of
    the dictionary or the iteration order of the Redis set; nothing below
    depends on it. *)
Definition get_all_peers (now : Z) (self : STUNServer) : list peer_info :=
  match self with
  | RedisBacked r =>
      omap (λ username, hgetall now ("peer:" +:+ username) r) (smembers r)
  | InMemory peers => (map_to_list peers).*2
  end.

Definition get_peer_info (now : Z) (username : json) (self : STUNServer)
  : option peer_info :=
  match self with
  | RedisBacked r => hgetall now (peer_key username) r
  | InMemory peers => peers !! dict_key username
  end.

Definition update_peer_status (now : Z) (username : json) (status : string)
    (self : STUNServer) : STUNServer * result unit :=
  match self with
  | RedisBacked r =>
      let key := peer_key username in
      if exists_ now key r then
        let r1 := hset_field now key (set_status status) r in
        let r2 := hset_field now key (set_last_seen now) r1 in
        match (if String.eqb status "online" then sadd username r2
               else srem username r2) with
        | Ok r3 => (RedisBacked r3, Ok ())
        | Raise e => (RedisBacked r2, Raise e)
        end
      else (self, Ok ())
  | InMemory _ => (self, Ok ())
  end.

(** One round of the [cleanup_old_peers] loop, run at instant [now]. *)
Definition cleanup_old_peers (now : Z) (self : STUNServer) : STUNServer :=
  match self with
  | RedisBacked _ => self
  | InMemory peers =>
      let to_remove :=
        (filter (λ kp, 1800 < now - last_seen kp.2) (map_to_list peers)).*1 in
      InMemory (foldl (λ m username, delete username m) peers to_remove)
  end.

End Server.

(** *** The Flask endpoints *)

Module Api.
Import Server.

(** What [request.get_json()] hands to the view.  A body that is not JSON
    at all makes it raise (or, in older Flask versions, return [None], which
    is [JsonValue (DVal JNull)] here). *)
Inductive jdata :=
  | DObj (fields : list (string * json))
  | DArr (items : list json)
  | DVal (v : json).

Inductive request :=
  | JsonRaises
  | JsonValue (d : jdata).

Definition get_json (req : request) : result jdata :=
  match req with
  | JsonRaises => Raise BadRequest
  | JsonValue d => Ok d
  end.

(** The fields of a parsed object, as the dictionary lookup sees them. *)
Fixpoint assoc (field : string) (fields : list (string * json)) : option json :=
  match fields with
  | [] => None
  | (k, v) :: rest => if String.eqb k field then Some v else assoc field rest
  end.

(** [field in data] *)
Definition contains (field : string) (data : jdata) : result bool :=
  match data with
  | DObj fields => Ok (bool_decide (is_Some (assoc field fields)))
  | DArr items => Ok (bool_decide (JStr field ∈ items))
  | DVal (JStr s) => Ok (bool_decide (is_Some (String.index 0 field s)))
  | DVal _ => Raise TypeError
  end.

(** [data[field]] *)
Definition getitem (field : string) (data : jdata) : result json :=
  match data with
  | DObj fields =>
      match assoc field fields with
      | Some v => Ok v
      | None => Raise KeyError
      end
  | DArr _ | DVal _ => Raise TypeError
  end.

(** [data.get(field)] *)
Definition dict_get (field : string) (data : jdata) : result json :=
  match data with
  | DObj fields => Ok (default JNull (assoc field fields))
  | DArr _ | DVal _ => Raise AttributeError
  end.

(** The JSON document of a response. *)
Inductive body :=
  | ErrorMsg (error : string)
  | Failed (what : string) (e : exn)
  | PeerMsg (message : string) (peer : peer_info)
  | PeerList (count : nat) (peers : list peer_info)
  | PeerOnly (peer : peer_info)
  | Message (message : string).

Record response := Response {
  reply : body;
  code : Z
}.

(** [try: ... except Exception as e: return jsonify(error=...), 500] *)
Definition guarded (what : string) (view : STUNServer * result response)
  : STUNServer * response :=
  match view with
  | (self, Ok resp) => (self, resp)
  | (self, Raise e) => (self, Response (Failed what e) 500)
  end.

Definition required_fields : list string := ["username"; "ip_address"; "port"].

(** The validation loop of [register]: the first required field that is
    not in [data], if any. *)
Fixpoint first_missing (fields : list string) (data : jdata)
  : result (option string) :=
  match fields with
  | [] => Ok None
  | field :: rest =>
      match contains field data with
      | Raise e => Raise e
      | Ok false => Ok (Some field)
      | Ok true => first_missing rest data
      end
  end.

Definition register_view (now : Z) (req : request) (self : STUNServer)
  : STUNServer * result response :=
  match get_json req with
  | Raise e => (self, Raise e)
  | Ok data =>
    match first_missing required_fields data with
    | Raise e => (self, Raise e)
    | Ok (Some field) =>
        (self, Ok (Response (ErrorMsg ("Missing required field: " +:+ field)) 400))
    | Ok None =>
      match getitem "username" data, getitem "ip_address" data, getitem "port" data with
      | Ok username, Ok ip_address, Ok port =>
          match get_peer_info now username self with
          | Some existing_peer =>
              match update_peer_status now username "online" self with
              | (self', Raise e) => (self', Raise e)
              | (self', Ok _) =>
                  (self', Ok (Response (PeerMsg "Peer updated successfully" existing_peer) 200))
              end
          | None =>
              match register_peer now username ip_address port self with
              | (self', Raise e) => (self', Raise e)
              | (self', Ok peer_info) =>
                  (self', Ok (Response (PeerMsg "Peer registered successfully" peer_info) 201))
              end
          end
      | Raise e, _, _ => (self, Raise e)
      | _, Raise e, _ => (self, Raise e)
      | _, _, Raise e => (self, Raise e)
      end
    end
  end.

Definition register (now : Z) (req : request) (self : STUNServer)
  : STUNServer * response :=
  guarded "Registration failed" (register_view now req self).

Definition get_peers (now : Z) (self : STUNServer) : STUNServer * response :=
  let peers := get_all_peers now self in
  let online_peers := filter (λ peer, status peer = "online") peers in
  (self, Response (PeerList (length online_peers) online_peers) 200).

(** [username] is the query parameter, absent or a text. *)
Definition get_peer_info (now : Z) (username : option string) (self : STUNServer)
  : STUNServer * response :=
  match username with
  | None | Some "" => (self, Response (ErrorMsg "Username parameter is required") 400)
  | Some u =>
      match Server.get_peer_info now (JStr u) self with
      | None => (self, Response (ErrorMsg ("Peer " +:+ u +:+ " not found")) 404)
      | Some peer_info => (self, Response (PeerOnly peer_info) 200)
      end
  end.

Definition heartbeat_view (now : Z) (req : request) (self : STUNServer)
  : STUNServer * result response :=
  match get_json req with
  | Raise e => (self, Raise e)
  | Ok data =>
    match dict_get "username" data with
    | Raise e => (self, Raise e)
    | Ok username =>
        if negb (truthy username) then
          (self, Ok (Response (ErrorMsg "Username is required") 400))
        else
          match update_peer_status now username "online" self with
          | (self', Raise e) => (self', Raise e)
          | (self', Ok _) => (self', Ok (Response (Message "Heartbeat received") 200))
          end
    end
  end.

Definition heartbeat (now : Z) (req : request) (self : STUNServer)
  : STUNServer * response :=
  guarded "Heartbeat failed" (heartbeat_view now req self).

Definition unregister_view (now : Z) (req : request) (self : STUNServer)
  : STUNServer * result response :=
  match get_json req with
  | Raise e => (self, Raise e)
  | Ok data =>
    match dict_get "username" data with
    | Raise e => (self, Raise e)
    | Ok username =>
        if negb (truthy username) then
          (self, Ok (Response (ErrorMsg "Username is required") 400))
        else
          match update_peer_status now username "offline" self with
          | (self', Raise e) => (self', Raise e)
          | (self', Ok _) =>
              (self', Ok (Response
                 (Message ("Peer " +:+ py_str username +:+ " unregistered successfully")) 200))
          end
    end
  end.

Definition unregister (now : Z) (req : request) (self : STUNServer)
  : STUNServer * response :=
  guarded "Unregistration failed" (unregister_view now req self).

End Api.

(** ** peer.py *)

Module Peer.

(** A socket is named by a number; the operating system hands out a fresh
    one for every [socket.socket()] and every [accept()]. *)
Definition sock := nat.

(** A JSON object on the wire. *)
Definition wire := list (string * json).

(** [m.get(field, default)] *)
Definition get (field : string) (dflt : json) (m : wire) : json :=
  default dflt (Api.assoc field m).

(** What one [recv(1024).decode('utf-8')] followed by [json.loads] and the
    first [.get] yields: nothing (the other side closed), bytes that are
    not a JSON object (one of the three steps raises), an object, a
    [socket.timeout], or another socket error.  The stream has no framing:
    a read yields [Object m] only when the bytes it returned are those of
    one message, whole and alone, which takes a message of at most 1024
    bytes; part of a longer message, or two messages in one read, are
    [Garbled]. *)
Inductive received :=
  | Empty
  | Garbled
  | Object (m : wire)
  | TimedOut
  | Fails.

(** A line read by [input()], or its failure. *)
Inductive console :=
  | Line (text : string)
  | InputFails.

Definition lower_ascii (c : ascii) : ascii :=
  let n := nat_of_ascii c in
  if (65 <=? n)%nat && (n <=? 90)%nat then ascii_of_nat (n + 32) else c.

(** [str.lower()] on text made of ASCII characters. *)
Fixpoint lower (s : string) : string :=
  match s with
  | EmptyString => EmptyString
  | String c rest => String (lower_ascii c) (lower rest)
  end.

(** The [Peer] object with the part of the world its methods act on: the
    [close()] calls made so far, the messages handed to [send], and the
    chat lines printed.  [close()] on a closed socket does nothing and does
    not raise. *)
Record node := Node {
  username : string;
  connections : gmap pykey sock;
  is_running : bool;
  closes : list sock;
  sent : list (sock * wire);
  printed : list (json * json * json)
}.

Definition close (s : sock) (self : node) : node :=
  Node (username self) (connections self) (is_running self)
       (closes self ++ [s]) (sent self) (printed self).

Definition send (s : sock) (m : wire) (self : node) : node :=
  Node (username self) (connections self) (is_running self)
       (closes self) (sent self ++ [(s, m)]) (printed self).

Definition print_chat (line : json * json * json) (self : node) : node :=
  Node (username self) (connections self) (is_running self)
       (closes self) (sent self) (printed self ++ [line]).

(** [self.connections[name] = s] *)
Definition set_connection (name : json) (s : sock) (self : node) : node :=
  Node (username self) (<[dict_key name := s]> (connections self)) (is_running self)
       (closes self) (sent self) (printed self).

(** [name in self.connections] *)
Definition connected (name : json) (self : node) : bool :=
  bool_decide (is_Some (connections self !! dict_key name)).

(** [if name in self.connections: del self.connections[name]] *)
Definition drop_connection (name : json) (self : node) : node :=
  Node (username self) (delete (dict_key name) (connections self)) (is_running self)
       (closes self) (sent self) (printed self).

Definition closed (s : sock) (self : node) : Prop := s ∈ closes self.

Definition close_calls (s : sock) (self : node) : nat :=
  length (filter (λ x, x = s) (closes self)).

Definition accept_msg (self : node) : wire :=
  [("type", JStr "connection_accepted"); ("from", JStr (username self))].

Definition reject_msg (self : node) : wire :=
  [("type", JStr "connection_rejected"); ("from", JStr (username self))].

Definition connect_request (now : Z) (self : node) : wire :=
  [("type", JStr "connect_request"); ("username", JStr (username self));
   ("timestamp", JNum now)].

Definition disconnect_msg (now : Z) (self : node) : wire :=
  [("type", JStr "disconnect"); ("from", JStr (username self)); ("timestamp", JNum now)].

Definition text_msg (now : Z) (message : string) (self : node) : wire :=
  [("type", JStr "message"); ("from", JStr (username self));
   ("content", JStr message); ("timestamp", JNum now)].

(** The listener side of the handshake, up to the point where the chat
    loops start.  [data] is what the first [recv] yields, [answer] what the
    console prompt returns, [send_ok] whether the reply could be sent. *)
Definition handle_incoming_connection (client_socket : sock) (data : received)
    (answer : console) (send_ok : bool) (self : node) : node :=
  match data with
  | Empty => self
  | Garbled | TimedOut | Fails => close client_socket self
  | Object connection_request =>
      if bool_decide (get "type" JNull connection_request = JStr "connect_request") then
        let from_username := get "username" JNull connection_request in
        match answer with
        | InputFails => close client_socket self
        | Line response =>
            if String.eqb (lower response) "y" then
              if send_ok then
                set_connection from_username client_socket
                  (send client_socket (accept_msg self) self)
              else close client_socket self
            else
              if send_ok then
                close client_socket (send client_socket (reject_msg self) self)
              else close client_socket self
        end
      else self
  end.

(** [Peer.get_peer_info]: the [peer] of a 200 answer of [/peerinfo]. *)
Definition get_peer_info (now : Z) (username : string) (server : Server.STUNServer)
  : option Server.peer_info :=
  match (Api.get_peer_info now (Some username) server).2 with
  | Api.Response (Api.PeerOnly peer) 200 => Some peer
  | _ => None
  end.

(** What the network does to a dial.  Whether [int(peer_info['port'])]
    raises is decided by the text of the port; it is taken here as part of
    the environment's answer, like the outcome of [connect] and [send]: a
    [socket.timeout], a refusal, or another error. *)
Inductive dial_io :=
  | BadPort
  | ConnectTimeout
  | ConnectRefused
  | ConnectFails
  | SendTimeout
  | SendFails
  | Reply (data : received).

(** The dialer side of the handshake, up to the point where the chat
    loops start.  The flag is [false] on the paths where the source returns
    [False], which it does at once; it is [true] where the source either
    returns [True] at once (a session is there already) or goes on to
    [chat_with_peer] and returns [True] when the chat has ended; the node
    paired with it is then the one [chat_with_peer] starts from.  A failure
    to start the threads of the chat is not modelled. *)
Definition connect_to_peer (now : Z) (target_username : string)
    (peer_info : option Server.peer_info) (peer_socket : sock) (io : dial_io)
    (self : node) : node * bool :=
  match peer_info with
  | None => (self, false)
  | Some _ =>
      if connected (JStr target_username) self then (self, true)
      else
        match io with
        | BadPort => (self, false)
        | ConnectTimeout | SendTimeout => (close peer_socket self, false)
        | ConnectRefused | ConnectFails | SendFails => (self, false)
        | Reply data =>
            let self1 := send peer_socket (connect_request now self) self in
            match data with
            | TimedOut => (close peer_socket self1, false)
            | Empty | Garbled | Fails => (self1, false)
            | Object response_data =>
                if bool_decide (get "type" JNull response_data = JStr "connection_accepted")
                then (set_connection (JStr target_username) peer_socket self1, true)
                else (close peer_socket self1, false)
            end
        end
  end.

(** Whether a loop of [chat_with_peer] is still running (blocked on its
    next read) or has left its [while]. *)
Inductive flow :=
  | Running
  | Stopped.

(** The clean-up after the [while] of [receive_messages]. *)
Definition clean_up (peer_username : json) (peer_socket : sock) (self : node) : node :=
  close peer_socket
    (if connected peer_username self then drop_connection peer_username self else self).

(** [receive_messages], driven by the successive outcomes of [recv]. *)
Fixpoint receive_messages (peer_username : json) (peer_socket : sock)
    (events : list received) (self : node) : node * flow :=
  if is_running self && connected peer_username self then
    match events with
    | [] => (self, Running)
    | Object message_data :: rest =>
        if bool_decide (get "type" JNull message_data = JStr "message") then
          let timestamp := get "timestamp" (JStr "") message_data in
          let sender := get "from" (JStr "Unknown") message_data in
          let content := get "content" (JStr "") message_data in
          receive_messages peer_username peer_socket rest
            (print_chat (timestamp, sender, content) self)
        else if bool_decide (get "type" JNull message_data = JStr "disconnect") then
          (clean_up peer_username peer_socket self, Stopped)
        else receive_messages peer_username peer_socket rest self
    | (Empty | Garbled | TimedOut | Fails) :: _ =>
        (clean_up peer_username peer_socket self, Stopped)
    end
  else (clean_up peer_username peer_socket self, Stopped).

(** One turn of the console: the instant, the line typed (or the failure
    of [input()]) and whether the [send] that follows succeeds. *)
Record turn := Turn {
  at_time : Z;
  typed : console;
  send_ok : bool
}.

(** [send_messages], driven by the successive console turns. *)
Fixpoint send_messages (peer_username : json) (peer_socket : sock)
    (turns : list turn) (self : node) : node * flow :=
  if is_running self && connected peer_username self then
    match turns with
    | [] => (self, Running)
    | Turn now (Line message) ok :: rest =>
        if String.eqb (lower message) "/exit" then
          if ok then
            let self1 := send peer_socket (disconnect_msg now self) self in
            let self2 :=
              if connected peer_username self1
              then drop_connection peer_username self1 else self1 in
            (close peer_socket self2, Stopped)
          else (self, Stopped)
        else
          if ok then
            send_messages peer_username peer_socket rest
              (send peer_socket (text_msg now message self) self)
          else (self, Stopped)
    | Turn _ InputFails _ :: _ => (self, Stopped)
    end
  else (self, Stopped).

(** [get_online_peers]: the [peers] of a 200 answer of [/peers] without the
    records that carry the node's own username.  [server] is [None] when
    the request does not get through. *)
Definition get_online_peers (now : Z) (server : option Server.STUNServer)
    (self : node) : list Server.peer_info :=
  match server with
  | None => []
  | Some stun =>
      match (Api.get_peers now stun).2 with
      | Api.Response (Api.PeerList _ peers) 200 =>
          filter (λ p, Server.username p ≠ JStr (username self)) peers
      | _ => []
      end
  end.

(** The rest of the [Peer] object: its address, the listening socket and
    whether the heartbeat thread has been started. *)
Record host := Host {
  core : node;
  local_ip : string;
  peer_port : option Z;
  tcp_server : option sock;
  heartbeat_thread : bool
}.

Definition set_running (b : bool) (self : node) : node :=
  Node (username self) (connections self) b (closes self) (sent self) (printed self).

(** What the operating system does to [start_tcp_server]: the socket
    cannot be made, or it is made and setting it up raises, or it listens
    on the port it was assigned. *)
Inductive listen_io :=
  | SocketFails
  | BindFails (s : sock)
  | Bound (s : sock) (assigned : Z).

Definition start_tcp_server (io : listen_io) (self : host) : host * bool :=
  match io with
  | SocketFails => (self, false)
  | BindFails s =>
      (Host (core self) (local_ip self) (peer_port self) (Some s)
            (heartbeat_thread self), false)
  | Bound s assigned =>
      (Host (set_running true (core self)) (local_ip self) (Some assigned) (Some s)
            (heartbeat_thread self), true)
  end.

Definition start_heartbeat (self : host) : host :=
  Host (core self) (local_ip self) (peer_port self) (tcp_server self) true.

(** [self.peer_port] as it goes into the JSON body and as a condition. *)
Definition port_value (self : host) : json :=
  match peer_port self with
  | Some p => JNum p
  | None => JNull
  end.

(** [register_with_stun].  [server] is [None] when the POST raises. *)
Definition register_with_stun (now : Z) (io : listen_io)
    (server : option Server.STUNServer) (self : host)
  : host * option Server.STUNServer * bool :=
  let '(self1, started) :=
    if negb (truthy (port_value self)) then start_tcp_server io self
    else (self, true) in
  if negb started then (self1, server, false)
  else
    match server with
    | None => (self1, None, false)
    | Some stun =>
        let registration_data :=
          Api.JsonValue (Api.DObj
            [("username", JStr (username (core self1)));
             ("ip_address", JStr (local_ip self1));
             ("port", port_value self1)]) in
        let '(stun', response) := Api.register now registration_data stun in
        if bool_decide (Api.code response ∈ [200; 201])
        then (start_heartbeat self1, Some stun', true)
        else (self1, Some stun', false)
    end.

(** [heartbeat_loop], one turn per instant at which the thread wakes up;
    the flag says whether the POST got through (a failure is swallowed). *)
Fixpoint heartbeat_loop (ticks : list (Z * bool)) (self : node)
    (stun : Server.STUNServer) : Server.STUNServer :=
  match ticks with
  | [] => stun
  | (now, delivered) :: rest =>
      if is_running self then
        heartbeat_loop rest self
          (if delivered
           then (Api.heartbeat now
                   (Api.JsonValue (Api.DObj [("username", JStr (username self))]))
                   stun).1
           else stun)
      else stun
  end.

(** [Peer.unregister]: every socket of the table is closed, the table is
    emptied, the listening socket is closed, and [/unregister] is posted;
    that the POST fails changes nothing for the node.  The sockets of the
    table are closed in the order of the map, not in the insertion order
    of the dictionary; nothing below depends on it. *)
Definition unregister (now : Z) (server : option Server.STUNServer) (self : host)
  : host * option Server.STUNServer :=
  let node0 := core self in
  let closing := ((map_to_list (connections node0)).*2 ++
                  match tcp_server self with
                  | Some s => [s]
                  | None => []
                  end)%list in
  let node1 :=
    Node (username node0) ∅ false (closes node0 ++ closing)%list (sent node0)
         (printed node0) in
  (Host node1 (local_ip self) (peer_port self) (tcp_server self)
        (heartbeat_thread self),
   match server with
   | Some stun =>
       Some (Api.unregister now
               (Api.JsonValue (Api.DObj [("username", JStr (username node0))]))
               stun).1
   | None => None
   end).

End Peer.

(** * Vocabulary of the statements *)

Import Server.

(** ** Requests and stores *)

(** The body the client of [peer.py] posts to [/register]. *)
Definition register_request (username ip_address port : json) : Api.request :=
  Api.JsonValue (Api.DObj
    [("username", username); ("ip_address", ip_address); ("port", port)]).

(** The body posted to [/heartbeat] and [/unregister]. *)
Definition username_request (username : json) : Api.request :=
  Api.JsonValue (Api.DObj [("username", username)]).

Definition empty_redis : STUNServer := RedisBacked (Redis ∅ ∅).
Definition empty_memory : STUNServer := InMemory ∅.

(** The records [/peers] lists. *)
Definition online_list (now : Z) (self : STUNServer) : list peer_info :=
  filter (λ peer, status peer = "online") (get_all_peers now self).

(** A run of [/register] calls for one name: instant, address, port. *)
Definition register_calls (u : string) (calls : list (Z * json * json))
    (self : STUNServer) : STUNServer :=
  foldl (λ s c, (Api.register c.1.1 (register_request (JStr u) c.1.2 c.2) s).1)
        self calls.

(** Calls made by well-behaved clients, whose usernames are text, and
    rounds of the clean-up loop. *)
Inductive call :=
  | Register (u : string) (ip port : json)
  | Heartbeat (u : string)
  | Unregister (u : string)
  | Sweep.

Definition perform (now : Z) (c : call) (self : STUNServer) : STUNServer :=
  match c with
  | Register u ip port =>
      (Api.register now (register_request (JStr u) ip port) self).1
  | Heartbeat u => (Api.heartbeat now (username_request (JStr u)) self).1
  | Unregister u => (Api.unregister now (username_request (JStr u)) self).1
  | Sweep => cleanup_old_peers now self
  end.

Definition run (trace : list (Z * call)) (self : STUNServer) : STUNServer :=
  foldl (λ s tc, perform tc.1 tc.2 s) self trace.

(** The stores a server can be in, started from [init]: any interleaving
    of the three writing endpoints, on any request, and of rounds of the
    clean-up loop. *)
Inductive reachable (init : STUNServer) : STUNServer → Prop :=
  | reach_init : reachable init init
  | reach_register now req s :
      reachable init s → reachable init (Api.register now req s).1
  | reach_heartbeat now req s :
      reachable init s → reachable init (Api.heartbeat now req s).1
  | reach_unregister now req s :
      reachable init s → reachable init (Api.unregister now req s).1
  | reach_cleanup now s :
      reachable init s → reachable init (cleanup_old_peers now s).

(** ** Relations between records and between stores *)

(** What [update_peer_status] does to a live Redis key: both fields are
    rewritten, the deadline and every other field stay. *)
Definition refreshed (now : Z) (st : string) (e : rentry) : rentry :=
  REntry (set_last_seen now (set_status st (hash e))) (deadline e).

(** The identity of a record: everything but [status] and [last_seen]. *)
Definition same_identity (p q : peer_info) : Prop :=
  username p = username q ∧ ip_address p = ip_address q ∧
  port p = port q ∧ registered_at p = registered_at q.

(** The three ways a request can leave the store: untouched, after an
    [update_peer_status], or after a [register_peer] for a name that
    [get_peer_info] did not find. *)
Inductive touches (now : Z) (self : STUNServer) : STUNServer → Prop :=
  | touch_none : touches now self self
  | touch_update username st :
      touches now self (update_peer_status now username st self).1
  | touch_register username ip_address port :
      get_peer_info now username self = None →
      touches now self (register_peer now username ip_address port self).1.

(** [keeps now self self']: every record that [self] holds at [now] is
    still held by [self'], with the same identity and the same deadline. *)
Definition keeps (now : Z) (self self' : STUNServer) : Prop :=
  match self, self' with
  | RedisBacked r, RedisBacked r' =>
      ∀ key e, live_entry now key r = Some e →
        ∃ e', hashes r' !! key = Some e' ∧ deadline e' = deadline e ∧
              same_identity (hash e') (hash e)
  | InMemory peers, InMemory peers' =>
      ∀ k p, peers !! k = Some p → peers' !! k = Some p
  | _, _ => False
  end.

(** Every Redis hash expires one hour after its [registered_at]. *)
Definition expires_after_an_hour (self : STUNServer) : Prop :=
  match self with
  | RedisBacked r =>
      ∀ key e, hashes r !! key = Some e →
        deadline e = Some (registered_at (hash e) + 3600)
  | InMemory _ => True
  end.

(** Text and integers: the values redis-py accepts. *)
Definition encodable (v : json) : Prop :=
  match v with
  | JStr _ | JNum _ => True
  | JNull | JBool _ => False
  end.

Definition well_typed (c : call) : Prop :=
  match c with
  | Register _ ip port => encodable ip ∧ encodable port
  | _ => True
  end.

Definition is_unregister (c : call) : Prop :=
  match c with
  | Unregister _ => True
  | _ => False
  end.

(** A record as Redis hands it back: every field value is text. *)
Definition rendered (p : peer_info) : peer_info :=
  PeerInfo (JStr (py_str (username p))) (JStr (py_str (ip_address p)))
           (JStr (py_str (port p))) (status p) (last_seen p) (registered_at p).

(** The relation between the two stores that every call made within 30
    minutes of [T] maintains: the dictionary holds text-named records, all
    online and not older than [T]; each has its Redis hash, which expires
    an hour after the registration; and Redis has no other hash. *)
Definition agree (T : Z) (r : redis) (m : gmap pykey peer_info) : Prop :=
  (∀ k p, m !! k = Some p →
     ∃ u, k = KStr u ∧ T ≤ last_seen p ∧ T ≤ registered_at p ∧ status p = "online") ∧
  (∀ u p, m !! KStr u = Some p →
     ∃ e, hashes r !! peer_key (JStr u) = Some e ∧
          deadline e = Some (registered_at p + 3600) ∧
          same_identity (hash e) (rendered p)) ∧
  (∀ key e, hashes r !! key = Some e →
     ∃ u, key = peer_key (JStr u) ∧ is_Some (m !! KStr u)).

(** Every record of the dictionary is online in Redis too, and a member
    of [online_peers]. *)
Definition all_online (r : redis) (m : gmap pykey peer_info) : Prop :=
  ∀ u p, m !! KStr u = Some p →
    u ∈ online_peers r ∧
    ∃ e, hashes r !! peer_key (JStr u) = Some e ∧ status (hash e) = "online".

(** What a store takes as the three fields of a registration: any scalar
    for the dictionary, text and integers for Redis. *)
Definition accepts (self : STUNServer) (u i q : json) : Prop :=
  match self with
  | InMemory _ => True
  | RedisBacked _ => encodable u ∧ encodable i ∧ encodable q
  end.

(** The record a store hands back for the record [p] it was given. *)
Definition stored_as (self : STUNServer) (p : peer_info) : peer_info :=
  match self with
  | InMemory _ => p
  | RedisBacked _ => rendered p
  end.

(** The instants at which a store still holds what was registered at
    [now], sweeps apart. *)
Definition holds_at (self : STUNServer) (now now' : Z) : Prop :=
  match self with
  | InMemory _ => True
  | RedisBacked _ => now' < now + 3600
  end.

(** Every Redis hash sits under the key made of the username it holds. *)
Definition named_hashes (self : STUNServer) : Prop :=
  match self with
  | RedisBacked r =>
      ∀ key e, hashes r !! key = Some e →
        ∃ k, key = "peer:" +:+ k ∧ username (hash e) = JStr k
  | InMemory _ => True
  end.

(** Two usernames that a store keeps in one place: the same text after
    [str()] for Redis, the same dictionary key otherwise. *)
Definition same_slot (self : STUNServer) (u v : json) : Prop :=
  match self with
  | RedisBacked _ => py_str u = py_str v
  | InMemory _ => dict_key u = dict_key v
  end.

(** [r'] has no hash that [r] has not, and none with another deadline. *)
Definition no_younger (r r' : redis) : Prop :=
  ∀ key e', hashes r' !! key = Some e' →
    ∃ e, hashes r !! key = Some e ∧ deadline e' = deadline e.

(** ** Two nodes *)


(** Lines typed at the console of [a], each with its instant and a [send]
    that succeeds; the messages they become on the wire; and what the
    other side prints for them. *)
Definition typed_lines (lines : list (Z * string)) : list Peer.turn :=
  map (λ l, Peer.Turn l.1 (Peer.Line l.2) true) lines.

Definition wire_lines (a : Peer.node) (lines : list (Z * string)) : list Peer.wire :=
  map (λ l, Peer.text_msg l.1 l.2 a) lines.

Definition shown_lines (a : Peer.node) (lines : list (Z * string))
  : list (json * json * json) :=
  map (λ l, (JNum l.1, JStr (Peer.username a), JStr l.2)) lines.

(** Bounds on the number of bytes [json.dumps] makes of a chat message and
    of a disconnect message: 89 and 77 bytes of braces, keys, quotes and
    separators around a timestamp of at most 26 characters, and at most 6
    bytes for each character of the username and of the text, an escape
    being 6 bytes long.  A message within 1024 bytes can reach the other
    side in one [recv(1024)]. *)
Definition text_msg_bytes (a : Peer.node) (message : string) : nat :=
  89 + 6 * String.length (Peer.username a) + 6 * String.length message.

Definition disconnect_msg_bytes (a : Peer.node) : nat :=
  77 + 6 * String.length (Peer.username a).

(** ** Concrete scenarios *)

(** Alice registers at instant 0 from 10.0.0.1:9000, then posts a second
    registration from 10.0.0.2:9001. *)
Definition alice : json := JStr "alice".

Definition alice_first : Api.request :=
  register_request alice (JStr "10.0.0.1") (JStr "9000").

Definition alice_second : Api.request :=
  register_request alice (JStr "10.0.0.2") (JStr "9001").

Definition alice_record : peer_info :=
  PeerInfo alice (JStr "10.0.0.1") (JStr "9000") "online" 0 0.

Definition alice_on (store : STUNServer) : STUNServer :=
  (Api.register 0 alice_first store).1.

(** Alice registering with an integer port, as the client of [peer.py]
    does, followed by a round of the clean-up loop 35 minutes later or by
    a heartbeat one minute later. *)
Definition alice_registers : call :=
  Register "alice" (JStr "10.0.0.1") (JNum 9000).

Definition alice_then_sweep : list (Z * call) :=
  [(0, alice_registers); (2100, Sweep)].

Definition alice_then_heartbeat : list (Z * call) :=
  [(0, alice_registers); (60, Heartbeat "alice")].

(** The Redis store after Alice has unregistered at instant 60. *)
Definition alice_offline : redis :=
  Redis {[ "peer:alice" :=
             REntry (set_last_seen 60 (set_status "offline" alice_record)) (Some 3600) ]}
        ∅.

(** Alice's node with one session, to bob, on socket 7; the nodes of bob
    and carol with none. *)
Definition alice_node : Peer.node :=
  Peer.Node "alice" {[KStr "bob" := 7%nat]} true [] [] [].

Definition bob_node : Peer.node := Peer.Node "bob" ∅ true [] [] [].

Definition carol_node : Peer.node := Peer.Node "carol" ∅ true [] [] [].

(** Alice's node after it has accepted, on socket 8, a request under the
    name of bob, with whom it is in session on socket 7. *)
Definition alice_after_duplicate : Peer.node :=
  Peer.handle_incoming_connection 8%nat
    (Peer.Object (Peer.connect_request 0 bob_node)) (Peer.Line "y") true
    alice_node.

(** * Properties *)

(** ** The Redis commands *)

Section redis_commands.
Variables (now : Z) (key : string).

Lemma live_entry_insert_eq e h s :
  live now e = true → live_entry now key (Redis (<[key := e]> h) s) = Some e.
Proof. intros Hl. unfold live_entry; simpl. by rewrite lookup_insert_eq, Hl. Qed.

Lemma live_entry_insert_ne key' e h s :
  key' ≠ key →
  live_entry now key (Redis (<[key' := e]> h) s) = live_entry now key (Redis h s).
Proof. intros Hne. unfold live_entry; simpl. by rewrite lookup_insert_ne. Qed.

Lemma live_entry_Some r e :
  live_entry now key r = Some e ↔ hashes r !! key = Some e ∧ live now e = true.
Proof.
  unfold live_entry. destruct (hashes r !! key) as [e'|].
  - destruct (live now e') eqn:E; split.
    + intros [= ->]. done.
    + intros [[= ->] _]. done.
    + done.
    + intros [[= ->] Hl]. congruence.
  - split; [done | by intros [? _]].
Qed.

Lemma hgetall_Some r p :
  hgetall now key r = Some p ↔ ∃ e, live_entry now key r = Some e ∧ hash e = p.
Proof.
  unfold hgetall. destruct (live_entry now key r) as [e|]; simpl; split.
  - intros [= <-]. by exists e.
  - by intros (e' & [= <-] & <-).
  - done.
  - by intros (e' & ? & _).
Qed.

Lemma exists_true r e : live_entry now key r = Some e → exists_ now key r = true.
Proof. intros H. unfold exists_. rewrite H. by apply bool_decide_eq_true. Qed.

Lemma exists_false r : live_entry now key r = None → exists_ now key r = false.
Proof.
  intros H. unfold exists_. rewrite H. apply bool_decide_eq_false.
  by intros [? ?].
Qed.
End redis_commands.

Lemma hset_field_live now key f r e :
  live_entry now key r = Some e →
  hset_field now key f r =
    Redis (<[key := REntry (f (hash e)) (deadline e)]> (hashes r)) (online_peers r).
Proof. intros He. unfold hset_field. by rewrite He. Qed.

Lemma update_peer_status_redis_live now u m st r e :
  redis_encode u = Ok m →
  live_entry now (peer_key u) r = Some e →
  update_peer_status now u st (RedisBacked r) =
    (RedisBacked (Redis (<[peer_key u := refreshed now st e]> (hashes r))
                        (if String.eqb st "online" then {[m]} ∪ online_peers r
                         else online_peers r ∖ {[m]})),
     Ok ()).
Proof.
  intros Hm He. unfold update_peer_status.
  rewrite (exists_true _ _ _ _ He).
  destruct (proj1 (live_entry_Some _ _ _ _) He) as [_ Hl].
  rewrite (hset_field_live _ _ (set_status st) r e He).
  rewrite (hset_field_live _ _ (set_last_seen now) _
             (REntry (set_status st (hash e)) (deadline e)))
    by (by apply live_entry_insert_eq).
  simpl. rewrite insert_insert_eq.
  unfold sadd, srem. rewrite Hm. by destruct (String.eqb st "online").
Qed.

Lemma update_peer_status_redis_absent now u st r :
  live_entry now (peer_key u) r = None →
  update_peer_status now u st (RedisBacked r) = (RedisBacked r, Ok ()).
Proof. intros He. unfold update_peer_status. by rewrite exists_false. Qed.


(** ** What a request can do to the store *)

Lemma guarded_fst what view : (Api.guarded what view).1 = view.1.
Proof. by destruct view as [? [?|?]]. Qed.

Lemma register_view_touches now req self :
  touches now self (Api.register_view now req self).1.
Proof.
  unfold Api.register_view.
  destruct (Api.get_json req) as [data|]; [|constructor].
  destruct (Api.first_missing _ data) as [[field|]|]; try constructor.
  destruct (Api.getitem "username" data) as [u|]; [|constructor].
  destruct (Api.getitem "ip_address" data) as [i|]; [|constructor].
  destruct (Api.getitem "port" data) as [q|]; [|constructor].
  destruct (get_peer_info now u self) as [existing|] eqn:Hg.
  - pose proof (touch_update now self u "online") as Ht.
    destruct (update_peer_status now u "online" self) as [self' [[]|e]]; exact Ht.
  - pose proof (touch_register now self u i q Hg) as Ht.
    destruct (register_peer now u i q self) as [self' [p|e]]; exact Ht.
Qed.

Lemma register_touches now req self :
  touches now self (Api.register now req self).1.
Proof. unfold Api.register. rewrite guarded_fst. apply register_view_touches. Qed.

Lemma heartbeat_touches now req self :
  touches now self (Api.heartbeat now req self).1.
Proof.
  unfold Api.heartbeat. rewrite guarded_fst. unfold Api.heartbeat_view.
  destruct (Api.get_json req) as [data|]; [|constructor].
  destruct (Api.dict_get "username" data) as [u|]; [|constructor].
  destruct (negb (truthy u)); [constructor|].
  pose proof (touch_update now self u "online") as Ht.
  destruct (update_peer_status now u "online" self) as [self' [[]|e]]; exact Ht.
Qed.

Lemma unregister_touches now req self :
  touches now self (Api.unregister now req self).1.
Proof.
  unfold Api.unregister. rewrite guarded_fst. unfold Api.unregister_view.
  destruct (Api.get_json req) as [data|]; [|constructor].
  destruct (Api.dict_get "username" data) as [u|]; [|constructor].
  destruct (negb (truthy u)); [constructor|].
  pose proof (touch_update now self u "offline") as Ht.
  destruct (update_peer_status now u "offline" self) as [self' [[]|e]]; exact Ht.
Qed.

Lemma update_peer_status_redis_hashes now u st r :
  ∃ s', (update_peer_status now u st (RedisBacked r)).1 =
        RedisBacked (Redis (match live_entry now (peer_key u) r with
                            | Some e => <[peer_key u := refreshed now st e]> (hashes r)
                            | None => hashes r
                            end) s').
Proof.
  unfold update_peer_status.
  destruct (live_entry now (peer_key u) r) as [e|] eqn:He.
  - rewrite (exists_true _ _ _ _ He).
    destruct (proj1 (live_entry_Some _ _ _ _) He) as [_ Hl].
    rewrite (hset_field_live _ _ (set_status st) r e He).
    rewrite (hset_field_live _ _ (set_last_seen now) _
               (REntry (set_status st (hash e)) (deadline e)))
      by (by apply live_entry_insert_eq).
    simpl. rewrite insert_insert_eq. unfold sadd, srem.
    destruct (String.eqb st "online"), (redis_encode u); simpl; eauto.
  - rewrite (exists_false _ _ _ He). exists (online_peers r). by destruct r.
Qed.

Lemma register_peer_redis_hashes now u i q r :
  (register_peer now u i q (RedisBacked r)).1 = RedisBacked r ∨
  ∃ p' s',
    encode_mapping (PeerInfo u i q "online" now now) = Ok p' ∧
    (register_peer now u i q (RedisBacked r)).1 =
      RedisBacked (Redis (<[peer_key u := REntry p' (Some (now + 3600))]> (hashes r)) s').
Proof.
  unfold register_peer, hset_mapping.
  destruct (encode_mapping _) as [p'|] eqn:Hp; [|by left].
  right. exists p'.
  set (d := match live_entry now (peer_key u) r with
            | Some e => deadline e
            | None => None
            end).
  assert (Hl : live now (REntry p' d) = true).
  { unfold d. destruct (live_entry now (peer_key u) r) as [e|] eqn:He; [|done].
    by destruct (proj1 (live_entry_Some _ _ _ _) He). }
  unfold expire. rewrite live_entry_insert_eq by done. simpl.
  rewrite insert_insert_eq. unfold sadd.
  destruct (redis_encode u); simpl; eauto.
Qed.

Lemma same_identity_refl p : same_identity p p.
Proof. by repeat split. Qed.

Lemma keeps_refl now self : keeps now self self.
Proof.
  destruct self as [r|peers]; simpl; [|done].
  intros key e He. exists e.
  destruct (proj1 (live_entry_Some _ _ _ _) He) as [Hk _].
  eauto using same_identity_refl.
Qed.

Lemma touches_keeps now self self' : touches now self self' → keeps now self self'.
Proof.
  intros [|u st|u i q Hnone]; [apply keeps_refl|..].
  - destruct self as [r|peers]; [|by simpl].
    destruct (update_peer_status_redis_hashes now u st r) as [s' ->]. simpl.
    intros key e He.
    destruct (proj1 (live_entry_Some _ _ _ _) He) as [Hk _].
    destruct (decide (key = peer_key u)) as [->|Hne].
    + rewrite He, lookup_insert_eq. eexists; split; [done|].
      split; [done|]. by repeat split.
    + exists e. split; [|eauto using same_identity_refl].
      destruct (live_entry now (peer_key u) r); [|done].
      by rewrite lookup_insert_ne.
  - destruct self as [r|peers].
    + simpl in Hnone.
      destruct (register_peer_redis_hashes now u i q r) as [->|(p' & s' & _ & ->)];
        [apply keeps_refl|].
      simpl. intros key e He.
      destruct (proj1 (live_entry_Some _ _ _ _) He) as [Hk _].
      assert (key ≠ peer_key u) as Hne.
      { intros ->. unfold hgetall in Hnone. by rewrite He in Hnone. }
      exists e. rewrite lookup_insert_ne by done. eauto using same_identity_refl.
    + simpl in *. intros k p Hk.
      rewrite lookup_insert_ne; [done|]. intros <-. congruence.
Qed.

Lemma same_identity_trans p q r :
  same_identity p q → same_identity q r → same_identity p r.
Proof. unfold same_identity. intuition congruence. Qed.

(** A record that [self] holds at [now] is found in [self'] at every
    instant its deadline allows, with the same identity. *)
Lemma keeps_lookup now self self' u p :
  keeps now self self' →
  get_peer_info now u self = Some p →
  (∃ p', get_peer_info now u self' = Some p' ∧ same_identity p' p) ∧
  (∀ now' p', get_peer_info now' u self' = Some p' → same_identity p' p) ∧
  (∀ now', is_Some (get_peer_info now' u self) → is_Some (get_peer_info now' u self')).
Proof.
  destruct self as [r|peers], self' as [r'|peers']; simpl; try done.
  - intros Hk Hg. apply hgetall_Some in Hg as (e & He & <-).
    destruct (Hk _ _ He) as (e' & Hk' & Hd & Hid).
    destruct (proj1 (live_entry_Some _ _ _ _) He) as [Hh Hl].
    assert (Hlive : ∀ t, live t e' = live t e) by (intros t; unfold live; by rewrite Hd).
    split; [|split].
    + exists (hash e'). split; [|done].
      apply hgetall_Some. exists e'. split; [|done].
      apply live_entry_Some. by rewrite Hlive.
    + intros now' p' Hg'. apply hgetall_Some in Hg' as (e'' & He'' & <-).
      destruct (proj1 (live_entry_Some _ _ _ _) He'') as [Hh'' _].
      by replace e'' with e' by congruence.
    + intros now' [q Hq]. apply hgetall_Some in Hq as (e0 & He0 & _).
      destruct (proj1 (live_entry_Some _ _ _ _) He0) as [Hh0 Hl0].
      replace e0 with e in * by congruence.
      exists (hash e'). apply hgetall_Some. exists e'. split; [|done].
      apply live_entry_Some. by rewrite Hlive.
  - intros Hk Hg. pose proof (Hk _ _ Hg) as Hg'. split; [|split].
    + exists p. eauto using same_identity_refl.
    + intros _ p' Hp'. replace p' with p by congruence. apply same_identity_refl.
    + intros _ _. eauto.
Qed.

(** ** Re-registration *)

Lemma register_view_object now fields self u i q :
  Api.assoc "username" fields = Some u →
  Api.assoc "ip_address" fields = Some i →
  Api.assoc "port" fields = Some q →
  Api.register_view now (Api.JsonValue (Api.DObj fields)) self =
    match get_peer_info now u self with
    | Some existing_peer =>
        match update_peer_status now u "online" self with
        | (self', Raise e) => (self', Raise e)
        | (self', Ok _) =>
            (self', Ok (Api.Response
               (Api.PeerMsg "Peer updated successfully" existing_peer) 200))
        end
    | None =>
        match register_peer now u i q self with
        | (self', Raise e) => (self', Raise e)
        | (self', Ok peer_info) =>
            (self', Ok (Api.Response
               (Api.PeerMsg "Peer registered successfully" peer_info) 201))
        end
    end.
Proof.
  intros Hu Hi Hq.
  unfold Api.register_view, Api.get_json, Api.required_fields, Api.first_missing,
    Api.contains, Api.getitem.
  rewrite Hu, Hi, Hq.
  rewrite !bool_decide_eq_true_2 by eauto. done.
Qed.

(** On the Redis store, [/register] for a name that is found answers 200
    with the record as it was read, and rewrites [status] and [last_seen]
    only. *)
Lemma register_existing_redis now fields r (u : string) i q existing :
  Api.assoc "username" fields = Some (JStr u) →
  Api.assoc "ip_address" fields = Some i →
  Api.assoc "port" fields = Some q →
  get_peer_info now (JStr u) (RedisBacked r) = Some existing →
  ∃ self',
    Api.register now (Api.JsonValue (Api.DObj fields)) (RedisBacked r) =
      (self', Api.Response (Api.PeerMsg "Peer updated successfully" existing) 200) ∧
    get_peer_info now (JStr u) self' =
      Some (set_last_seen now (set_status "online" existing)).
Proof.
  intros Hu Hi Hq Hg. simpl in Hg.
  apply hgetall_Some in Hg as (e & He & <-).
  destruct (proj1 (live_entry_Some _ _ _ _) He) as [_ Hl].
  unfold Api.register.
  rewrite (register_view_object _ _ _ _ _ _ Hu Hi Hq). simpl get_peer_info.
  replace (hgetall now (peer_key (JStr u)) r) with (Some (hash e))
    by (symmetry; apply hgetall_Some; eauto).
  rewrite (update_peer_status_redis_live now (JStr u) u "online" r e eq_refl He).
  eexists. split; [reflexivity|]. simpl.
  apply hgetall_Some. exists (refreshed now "online" e). split; [|reflexivity].
  by apply live_entry_insert_eq.
Qed.

(** On the in-memory store the same call answers alike and leaves the
    dictionary as it was. *)
Lemma register_existing_memory now fields peers u i q existing :
  Api.assoc "username" fields = Some u →
  Api.assoc "ip_address" fields = Some i →
  Api.assoc "port" fields = Some q →
  get_peer_info now u (InMemory peers) = Some existing →
  Api.register now (Api.JsonValue (Api.DObj fields)) (InMemory peers) =
    (InMemory peers,
     Api.Response (Api.PeerMsg "Peer updated successfully" existing) 200).
Proof.
  intros Hu Hi Hq Hg. unfold Api.register.
  rewrite (register_view_object _ _ _ _ _ _ Hu Hi Hq). by rewrite Hg.
Qed.

(** A record, once found, is the same at whatever instant it is read. *)
Lemma get_peer_info_time t t' u self p q :
  get_peer_info t u self = Some p → get_peer_info t' u self = Some q → p = q.
Proof.
  destruct self as [r|peers]; simpl; [|congruence].
  intros Hp Hq.
  apply hgetall_Some in Hp as (e & He & <-).
  apply hgetall_Some in Hq as (e' & He' & <-).
  destruct (proj1 (live_entry_Some _ _ _ _) He) as [Hh _].
  destruct (proj1 (live_entry_Some _ _ _ _) He') as [Hh' _].
  congruence.
Qed.

Lemma register_calls_keeps u calls self :
  Forall (λ c, is_Some (get_peer_info c.1.1 (JStr u) self)) calls →
  ∀ t p, get_peer_info t (JStr u) self = Some p →
    ∃ p', get_peer_info t (JStr u) (register_calls u calls self) = Some p' ∧
          same_identity p' p.
Proof.
  revert self. induction calls as [|c calls IH]; intros self Hall t p Hp.
  - exists p. simpl. eauto using same_identity_refl.
  - apply Forall_cons in Hall as [[q Hq] Hall].
    unfold register_calls. simpl. fold (register_calls u calls).
    set (req := register_request (JStr u) c.1.2 c.2).
    pose proof (touches_keeps _ _ _ (register_touches c.1.1 req self)) as Hk.
    destruct (keeps_lookup _ _ _ _ _ Hk Hq) as (_ & Hlater & Hsome).
    assert (q = p) as -> by (eapply get_peer_info_time; eauto).
    destruct (Hsome t (ex_intro _ p Hp)) as [p1 Hp1].
    destruct (IH (Api.register c.1.1 req self).1) with (t := t) (p := p1)
      as (p2 & Hp2 & Hid); [|done|].
    + eapply Forall_impl; [exact Hall|]. intros c' Hc'. simpl. by apply Hsome.
    + exists p2. split; [done|].
      eapply same_identity_trans; [exact Hid|]. eauto.
Qed.

(** C1 (counterexample).  Alice is registered from 10.0.0.1:9000 and
    registers again, a minute later, from 10.0.0.2:9001.  The record exists
    at the second call, and afterwards neither store holds the address of
    that call: both still hold 10.0.0.1:9000. *)
Lemma register_again_keeps_old_address :
  (get_peer_info 60 alice (alice_on empty_redis) = Some alice_record ∧
   get_peer_info 60 alice (Api.register 60 alice_second (alice_on empty_redis)).1
     = Some (set_last_seen 60 alice_record) ∧
   ip_address (set_last_seen 60 alice_record) ≠ JStr "10.0.0.2") ∧
  (get_peer_info 60 alice (alice_on empty_memory) = Some alice_record ∧
   get_peer_info 60 alice (Api.register 60 alice_second (alice_on empty_memory)).1
     = Some alice_record ∧
   ip_address alice_record ≠ JStr "10.0.0.2").
Proof. repeat split; try (vm_compute; reflexivity); discriminate. Qed.

(** C1 (amended).  A [/register] call for a name whose record is found
    never fails: it answers 200 with the record as it was read, and the
    stored record keeps its username, address, port and registration time;
    the address of the call is not stored.  On the Redis store the stored
    record then has status online and [last_seen] equal to the instant of
    the call.  Consequently, after any run of [/register] calls for that
    name made while its record exists, a lookup finds the address of the
    registration that created the record. *)
Theorem register_existing_refreshes_status_only
    now fields self (u : string) i q existing :
  Api.assoc "username" fields = Some (JStr u) →
  Api.assoc "ip_address" fields = Some i →
  Api.assoc "port" fields = Some q →
  get_peer_info now (JStr u) self = Some existing →
  (∃ self' p,
     Api.register now (Api.JsonValue (Api.DObj fields)) self =
       (self', Api.Response (Api.PeerMsg "Peer updated successfully" existing) 200) ∧
     get_peer_info now (JStr u) self' = Some p ∧
     same_identity p existing ∧
     (∀ r, self = RedisBacked r → status p = "online" ∧ last_seen p = now)) ∧
  (∀ calls t,
     Forall (λ c, is_Some (get_peer_info c.1.1 (JStr u) self)) calls →
     is_Some (get_peer_info t (JStr u) self) →
     ∃ p, get_peer_info t (JStr u) (register_calls u calls self) = Some p ∧
          same_identity p existing).
Proof.
  intros Hu Hi Hq Hg. split.
  - destruct self as [r|peers].
    + destruct (register_existing_redis _ _ _ _ _ _ _ Hu Hi Hq Hg) as (self' & Hr & Hl).
      exists self', (set_last_seen now (set_status "online" existing)).
      repeat split; done.
    + exists (InMemory peers), existing.
      rewrite (register_existing_memory _ _ _ _ _ _ _ Hu Hi Hq Hg).
      repeat split; done.
  - intros calls t Hall [p0 Hp0].
    assert (p0 = existing) as -> by (eapply get_peer_info_time; eauto).
    by apply register_calls_keeps.
Qed.

(** The hypotheses hold of Alice's second registration, on Redis. *)
Lemma register_existing_refreshes_status_only_witness :
  ∃ self' p,
    Api.register 60 alice_second (alice_on empty_redis) =
      (self', Api.Response (Api.PeerMsg "Peer updated successfully" alice_record) 200) ∧
    get_peer_info 60 alice self' = Some p ∧
    same_identity p alice_record ∧
    (∀ r, alice_on empty_redis = RedisBacked r → status p = "online" ∧ last_seen p = 60).
Proof.
  refine (proj1 (register_existing_refreshes_status_only 60
    [("username", alice); ("ip_address", JStr "10.0.0.2"); ("port", JStr "9001")]
    (alice_on empty_redis) "alice" (JStr "10.0.0.2") (JStr "9001") alice_record
    _ _ _ _)); vm_compute; reflexivity.
Defined.

(** ** Heartbeat *)

Lemma heartbeat_redis_refreshes now r (u : string) existing :
  u ≠ "" →
  get_peer_info now (JStr u) (RedisBacked r) = Some existing →
  ∃ self',
    Api.heartbeat now (username_request (JStr u)) (RedisBacked r) =
      (self', Api.Response (Api.Message "Heartbeat received") 200) ∧
    get_peer_info now (JStr u) self' =
      Some (set_last_seen now (set_status "online" existing)).
Proof.
  intros Hne Hg. simpl in Hg. apply hgetall_Some in Hg as (e & He & <-).
  destruct (proj1 (live_entry_Some _ _ _ _) He) as [_ Hl].
  unfold Api.heartbeat, Api.heartbeat_view.
  unfold username_request, Api.get_json, Api.dict_get, Api.assoc.
  rewrite String.eqb_refl. unfold default, truthy.
  unfold id. cbv beta iota.
  replace (String.eqb u "") with false by (symmetry; by apply String.eqb_neq).
  simpl negb. cbv iota.
  rewrite (update_peer_status_redis_live now (JStr u) u "online" r e eq_refl He).
  eexists. split; [reflexivity|]. simpl.
  apply hgetall_Some. exists (refreshed now "online" e). split; [|reflexivity].
  by apply live_entry_insert_eq.
Qed.

Lemma heartbeat_memory_state now req peers :
  (Api.heartbeat now req (InMemory peers)).1 = InMemory peers.
Proof.
  unfold Api.heartbeat. rewrite guarded_fst. unfold Api.heartbeat_view.
  destruct (Api.get_json req) as [data|]; [|done].
  destruct (Api.dict_get "username" data) as [u|]; [|done].
  by destruct (negb (truthy u)).
Qed.

Lemma unregister_memory_state now req peers :
  (Api.unregister now req (InMemory peers)).1 = InMemory peers.
Proof.
  unfold Api.unregister. rewrite guarded_fst. unfold Api.unregister_view.
  destruct (Api.get_json req) as [data|]; [|done].
  destruct (Api.dict_get "username" data) as [u|]; [|done].
  by destruct (negb (truthy u)).
Qed.

(** A heartbeat for a name that has no record answers 200 and changes
    nothing, on either store. *)
Lemma heartbeat_absent_is_noop now u self :
  truthy u = true →
  get_peer_info now u self = None →
  Api.heartbeat now (username_request u) self =
    (self, Api.Response (Api.Message "Heartbeat received") 200).
Proof.
  intros Hu Hnone.
  unfold Api.heartbeat, Api.heartbeat_view, username_request, Api.get_json,
    Api.dict_get, Api.assoc.
  rewrite String.eqb_refl. unfold default, id. cbv beta iota. rewrite Hu.
  simpl negb. cbv iota.
  destruct self as [r|peers]; [|done].
  rewrite update_peer_status_redis_absent; [done|].
  simpl in Hnone. unfold hgetall in Hnone.
  by destruct (live_entry now (peer_key u) r).
Qed.

(** C2.  On the in-memory store a heartbeat changes nothing: whatever the
    request, the dictionary is the one it was.  Alice, registered at
    instant 0, sends a heartbeat at instant 100: the answer is 200 and her
    record still says [last_seen] 0. *)
Theorem heartbeat_memory_changes_nothing :
  (∀ now req peers, (Api.heartbeat now req (InMemory peers)).1 = InMemory peers) ∧
  Api.heartbeat 100 (username_request alice) (alice_on empty_memory) =
    (alice_on empty_memory, Api.Response (Api.Message "Heartbeat received") 200) ∧
  get_peer_info 100 alice (alice_on empty_memory) = Some alice_record ∧
  last_seen alice_record = 0.
Proof.
  split; [exact heartbeat_memory_state|].
  repeat split; vm_compute; reflexivity.
Qed.

(** ** Requests without a body *)

(** C8.  A request without a JSON body ([get_json] raises, or yields
    [None]) is answered 500 by [/register], [/heartbeat] and [/unregister],
    and the store is left as it was. *)
Theorem no_json_body_answers_500 now self :
  Forall (λ req,
    (Api.register now req self).1 = self ∧ Api.code (Api.register now req self).2 = 500 ∧
    (Api.heartbeat now req self).1 = self ∧ Api.code (Api.heartbeat now req self).2 = 500 ∧
    (Api.unregister now req self).1 = self ∧ Api.code (Api.unregister now req self).2 = 500)
    [Api.JsonRaises; Api.JsonValue (Api.DVal JNull)].
Proof. repeat constructor. Qed.

(** A JSON object that lacks a required field is answered 400. *)
Lemma register_missing_field now fields self :
  (∃ field, field ∈ Api.required_fields ∧ Api.assoc field fields = None) →
  (Api.register now (Api.JsonValue (Api.DObj fields)) self).1 = self ∧
  Api.code (Api.register now (Api.JsonValue (Api.DObj fields)) self).2 = 400.
Proof.
  intros (field & Hin & Hnone).
  unfold Api.register, Api.register_view, Api.get_json, Api.required_fields in *.
  unfold Api.first_missing, Api.contains.
  destruct (Api.assoc "username" fields) eqn:Hu; [|done].
  destruct (Api.assoc "ip_address" fields) eqn:Hi; [|done].
  destruct (Api.assoc "port" fields) eqn:Hq; [|done].
  repeat (apply elem_of_cons in Hin as [->|Hin]; [congruence|]).
  by apply elem_of_nil in Hin.
Qed.

Lemma heartbeat_missing_field now fields self :
  Api.assoc "username" fields = None →
  Api.heartbeat now (Api.JsonValue (Api.DObj fields)) self =
    (self, Api.Response (Api.ErrorMsg "Username is required") 400) ∧
  Api.unregister now (Api.JsonValue (Api.DObj fields)) self =
    (self, Api.Response (Api.ErrorMsg "Username is required") 400).
Proof.
  intros Hnone.
  unfold Api.heartbeat, Api.heartbeat_view, Api.unregister, Api.unregister_view.
  simpl. by rewrite Hnone.
Qed.

(** ** The registration time *)

(** C9.  Whatever request [/register], [/heartbeat] or [/unregister]
    receives, a record that exists when the call is made still exists
    after it with the same [registered_at] (and the same username, address
    and port), and every later lookup that finds a record for the name
    finds that [registered_at]. *)
Theorem registered_at_is_kept now req self u p :
  get_peer_info now u self = Some p →
  Forall (λ self',
    (∃ p', get_peer_info now u self' = Some p' ∧ registered_at p' = registered_at p) ∧
    (∀ now' p', get_peer_info now' u self' = Some p' →
                registered_at p' = registered_at p))
    [(Api.register now req self).1;
     (Api.heartbeat now req self).1;
     (Api.unregister now req self).1].
Proof.
  intros Hg.
  assert (Hone : ∀ self', touches now self self' →
    (∃ p', get_peer_info now u self' = Some p' ∧ registered_at p' = registered_at p) ∧
    (∀ now' p', get_peer_info now' u self' = Some p' →
                registered_at p' = registered_at p)).
  { intros self' Ht.
    destruct (keeps_lookup _ _ _ _ _ (touches_keeps _ _ _ Ht) Hg)
      as ((p' & Hp' & Hid) & Hlater & _).
    split.
    - exists p'. split; [done|]. apply Hid.
    - intros now' q Hq. by apply (Hlater now' q). }
  repeat constructor;
    apply Hone; auto using register_touches, heartbeat_touches, unregister_touches.
Qed.

(** The hypothesis holds of Alice's record, a minute after she registered. *)
Lemma registered_at_is_kept_witness :
  Forall (λ self',
    (∃ p', get_peer_info 60 alice self' = Some p' ∧
           registered_at p' = registered_at alice_record) ∧
    (∀ now' p', get_peer_info now' alice self' = Some p' →
                registered_at p' = registered_at alice_record))
    [(Api.register 60 alice_second (alice_on empty_redis)).1;
     (Api.heartbeat 60 alice_second (alice_on empty_redis)).1;
     (Api.unregister 60 alice_second (alice_on empty_redis)).1].
Proof.
  apply (registered_at_is_kept 60 alice_second (alice_on empty_redis) alice alice_record).
  vm_compute; reflexivity.
Defined.

(** ** The list of online peers *)

(** C10.  [GET /peers] always answers 200, its [count] is the length of
    its [peers], and every listed record has status online. *)
Theorem get_peers_count_and_status now self :
  ∃ peers,
    Api.get_peers now self = (self, Api.Response (Api.PeerList (length peers) peers) 200) ∧
    Forall (λ peer, status peer = "online") peers.
Proof.
  eexists. split; [reflexivity|].
  apply Forall_forall. intros peer Hin.
  by apply list_elem_of_filter in Hin as [? _].
Qed.

(** ** Expiry *)

Lemma foldl_delete_lookup (m : gmap pykey peer_info) (ks : list pykey) k :
  foldl (λ m username, delete username m) m ks !! k =
    if decide (k ∈ ks) then None else m !! k.
Proof.
  revert m. induction ks as [|k' ks IH]; intros m; simpl.
  - destruct (decide (k ∈ [])) as [H|_]; [by apply elem_of_nil in H|done].
  - rewrite IH.
    destruct (decide (k ∈ ks)) as [Hin|Hnin].
    + by rewrite decide_True by (by constructor).
    + destruct (decide (k = k')) as [->|Hne].
      * rewrite lookup_delete_eq. by rewrite decide_True by constructor.
      * rewrite lookup_delete_ne by done.
        rewrite decide_False; [done|].
        intros [?|?]%elem_of_cons; done.
Qed.

(** After a round of the clean-up loop the dictionary holds exactly the
    records seen within the last 30 minutes. *)
Lemma cleanup_old_peers_lookup now peers k :
  ∃ peers', cleanup_old_peers now (InMemory peers) = InMemory peers' ∧
    peers' !! k =
      match peers !! k with
      | Some p => if decide (1800 < now - last_seen p) then None else Some p
      | None => None
      end.
Proof.
  eexists. split; [reflexivity|].
  rewrite foldl_delete_lookup.
  destruct (peers !! k) as [p|] eqn:Hk.
  - case_decide as Hin; case_decide as Hold; try done.
    + apply list_elem_of_fmap in Hin as ([k' p'] & -> & Hin).
      apply list_elem_of_filter in Hin as [Hold' Hin].
      apply elem_of_map_to_list in Hin. simpl in *. congruence.
    + exfalso. apply Hin. apply list_elem_of_fmap. exists (k, p). split; [done|].
      apply list_elem_of_filter. split; [done|]. by apply elem_of_map_to_list.
  - by case_decide.
Qed.

Lemma encode_mapping_registered_at p p' :
  encode_mapping p = Ok p' →
  registered_at p' = registered_at p ∧ last_seen p' = last_seen p ∧
  status p' = status p.
Proof.
  unfold encode_mapping.
  destruct (redis_encode (username p)), (redis_encode (ip_address p)),
    (redis_encode (port p)); intros [= <-]; done.
Qed.

Lemma touches_expires_after_an_hour now self self' :
  touches now self self' → expires_after_an_hour self → expires_after_an_hour self'.
Proof.
  intros [|u st|u i q Hnone] Hwf; [done|..].
  - destruct self as [r|peers]; [|done].
    destruct (update_peer_status_redis_hashes now u st r) as [s' ->]. simpl in *.
    intros key e.
    destruct (live_entry now (peer_key u) r) as [e0|] eqn:He0; [|by apply Hwf].
    destruct (proj1 (live_entry_Some _ _ _ _) He0) as [Hh0 _].
    destruct (decide (key = peer_key u)) as [->|Hne].
    + rewrite lookup_insert_eq. intros [= <-]. simpl. by apply (Hwf _ _ Hh0).
    + rewrite lookup_insert_ne by done. apply Hwf.
  - destruct self as [r|peers]; [|done].
    destruct (register_peer_redis_hashes now u i q r) as [->|(p' & s' & Hp' & ->)];
      [done|].
    simpl in *. intros key e.
    destruct (decide (key = peer_key u)) as [->|Hne].
    + rewrite lookup_insert_eq. intros [= <-]. simpl.
      by destruct (encode_mapping_registered_at _ _ Hp') as [-> _].
    + rewrite lookup_insert_ne by done. apply Hwf.
Qed.

Lemma reachable_expires_after_an_hour self :
  reachable empty_redis self → expires_after_an_hour self.
Proof.
  induction 1 as [|now req s _ IH|now req s _ IH|now req s _ IH|now s _ IH].
  - intros key e. simpl. by rewrite lookup_empty.
  - eapply touches_expires_after_an_hour; [apply register_touches|done].
  - eapply touches_expires_after_an_hour; [apply heartbeat_touches|done].
  - eapply touches_expires_after_an_hour; [apply unregister_touches|done].
  - by destruct s.
Qed.

(** C4 (counterexample).  Alice registers at instant 0 and is never heard
    of again.  A round of the clean-up loop at instant 1800 keeps her
    record, and at instant 2000, more than 30 minutes after her
    [last_seen], [/peers] still lists her, on both stores. *)
Lemma stale_record_is_still_listed :
  (Api.get_peers 2000 (cleanup_old_peers 1800 (alice_on empty_memory))).2 =
    Api.Response (Api.PeerList 1 [alice_record]) 200 ∧
  (Api.get_peers 2000 (cleanup_old_peers 1800 (alice_on empty_redis))).2 =
    Api.Response (Api.PeerList 1 [alice_record]) 200 ∧
  1800 < 2000 - last_seen alice_record.
Proof. repeat split; vm_compute; reflexivity. Qed.

(** C4 (amended).  Staleness is not checked when [/peers] is read.  On the
    in-memory store the clean-up loop deletes the records whose [last_seen]
    is more than 30 minutes old: right after one of its rounds, run at
    [now], every listed record has [last_seen] within 30 minutes of [now].
    On the Redis store a record is listed only while its key has not
    expired, that is, up to one hour after its [registered_at] and no
    later. *)
Theorem listed_records_after_expiry :
  (∀ now peers n ps,
     (Api.get_peers now (cleanup_old_peers now (InMemory peers))).2 =
       Api.Response (Api.PeerList n ps) 200 →
     ∀ p, p ∈ ps → now - last_seen p ≤ 1800) ∧
  (∀ now self n ps,
     reachable empty_redis self →
     (Api.get_peers now self).2 = Api.Response (Api.PeerList n ps) 200 →
     ∀ p, p ∈ ps → now ≤ registered_at p + 3600).
Proof.
  split.
  - intros now peers n ps Hresp p Hp.
    unfold Api.get_peers in Hresp. simpl in Hresp.
    injection Hresp as _ <-.
    apply list_elem_of_filter in Hp as [_ Hp].
    apply list_elem_of_fmap in Hp as ([k p'] & -> & Hp).
    apply elem_of_map_to_list in Hp. simpl.
    destruct (cleanup_old_peers_lookup now peers k) as (peers' & [= <-] & Hk).
    rewrite Hk in Hp. destruct (peers !! k) as [q|]; [|done].
    case_decide; [done|]. injection Hp as ->. lia.
  - intros now self n ps Hreach Hresp p Hp.
    pose proof (reachable_expires_after_an_hour _ Hreach) as Hwf.
    unfold Api.get_peers in Hresp. simpl in Hresp.
    injection Hresp as _ <-.
    apply list_elem_of_filter in Hp as [_ Hp].
    destruct self as [r|peers].
    + simpl in Hp, Hwf. apply list_elem_of_omap in Hp as (u & _ & Hu).
      apply hgetall_Some in Hu as (e & He & <-).
      apply live_entry_Some in He as [Hh Hl].
      unfold live in Hl. rewrite (Hwf _ _ Hh) in Hl. lia.
    + exfalso. clear -Hreach. remember empty_redis as init eqn:Hi.
      remember (InMemory peers) as s eqn:Hs. revert peers Hs.
      induction Hreach as [|now req s Hr IH|now req s Hr IH|now req s Hr IH|now s Hr IH];
        intros peers Hs; subst init.
      * done.
      * pose proof (touches_keeps _ _ _ (register_touches now req s)) as Hk.
        rewrite Hs in Hk. destruct s; [done|]. by eapply IH.
      * pose proof (touches_keeps _ _ _ (heartbeat_touches now req s)) as Hk.
        rewrite Hs in Hk. destruct s; [done|]. by eapply IH.
      * pose proof (touches_keeps _ _ _ (unregister_touches now req s)) as Hk.
        rewrite Hs in Hk. destruct s; [done|]. by eapply IH.
      * destruct s; [done|]. by eapply IH.
Qed.

(** Both parts at work: a dictionary swept at instant 1800, and the Redis
    store Alice registered with, read at instant 2000. *)
Lemma listed_records_after_expiry_witness :
  1800 - last_seen alice_record ≤ 1800 ∧ 2000 ≤ registered_at alice_record + 3600.
Proof.
  split.
  - apply (proj1 listed_records_after_expiry 1800 {[KStr "alice" := alice_record]}
             1%nat [alice_record]).
    + vm_compute; reflexivity.
    + by apply list_elem_of_singleton.
  - apply (proj2 listed_records_after_expiry 2000 (alice_on empty_redis)
             1%nat [alice_record]).
    + exact (reach_register empty_redis 0 alice_first _ (reach_init _)).
    + vm_compute; reflexivity.
    + by apply list_elem_of_singleton.
Defined.

(** ** The two stores side by side *)

Lemma redis_encode_encodable v : encodable v → redis_encode v = Ok (py_str v).
Proof. by destruct v. Qed.

Lemma perform_register_memory now u ip port m :
  perform now (Register u ip port) (InMemory m) =
    InMemory (match m !! KStr u with
              | Some _ => m
              | None => <[KStr u := PeerInfo (JStr u) ip port "online" now now]> m
              end).
Proof.
  unfold perform, Api.register, register_request.
  rewrite (register_view_object now _ _ (JStr u) ip port) by done.
  simpl. by destruct (m !! KStr u).
Qed.

Lemma perform_register_redis now u i q r :
  encodable i → encodable q →
  perform now (Register u i q) (RedisBacked r) =
    RedisBacked (Redis
      (<[peer_key (JStr u) :=
           match live_entry now (peer_key (JStr u)) r with
           | Some e => refreshed now "online" e
           | None =>
               REntry (rendered (PeerInfo (JStr u) i q "online" now now))
                      (Some (now + 3600))
           end]> (hashes r))
      ({[u]} ∪ online_peers r)).
Proof.
  intros Hi Hq.
  unfold perform, Api.register, register_request.
  rewrite (register_view_object now _ _ (JStr u) i q) by done.
  simpl get_peer_info. unfold hgetall.
  destruct (live_entry now (peer_key (JStr u)) r) as [e|] eqn:He; simpl fmap.
  - by rewrite (update_peer_status_redis_live now (JStr u) u "online" r e eq_refl He).
  - unfold register_peer, hset_mapping, encode_mapping. cbn [username ip_address port].
    rewrite (redis_encode_encodable _ Hi), (redis_encode_encodable _ Hq).
    simpl redis_encode.
    rewrite He. unfold expire. rewrite live_entry_insert_eq by done.
    simpl. by rewrite insert_insert_eq.
Qed.

Lemma truthy_text u : truthy (JStr u) = bool_decide (u ≠ "").
Proof.
  unfold truthy. destruct (String.eqb_spec u "") as [->|Hne].
  - done.
  - by rewrite bool_decide_eq_true_2.
Qed.

Lemma perform_update_redis now u r (unreg : bool) :
  perform now (if unreg then Unregister u else Heartbeat u) (RedisBacked r) =
    match live_entry now (peer_key (JStr u)) r with
    | Some e =>
        if decide (u = "") then RedisBacked r
        else RedisBacked (Redis
          (<[peer_key (JStr u) :=
               refreshed now (if unreg then "offline" else "online") e]> (hashes r))
          (if unreg then online_peers r ∖ {[u]} else {[u]} ∪ online_peers r))
    | None => RedisBacked r
    end.
Proof.
  destruct unreg; unfold perform, Api.heartbeat, Api.unregister;
    rewrite guarded_fst; unfold Api.heartbeat_view, Api.unregister_view;
    unfold username_request, Api.get_json, Api.dict_get, Api.assoc;
    rewrite String.eqb_refl; unfold default, id; cbv beta iota;
    rewrite truthy_text;
    (destruct (decide (u = "")) as [->|Hne];
     [rewrite bool_decide_eq_false_2 by (intros H; by apply H); simpl;
      by destruct (live_entry _ _ _)|]);
    rewrite bool_decide_eq_true_2 by done; simpl negb; cbv iota;
    (destruct (live_entry now (peer_key (JStr u)) r) as [e|] eqn:He;
     [by rewrite (update_peer_status_redis_live now (JStr u) u _ r e eq_refl He)
     |by rewrite (update_peer_status_redis_absent _ _ _ _ He)]).
Qed.

Lemma peer_key_inj u v : peer_key (JStr u) = peer_key (JStr v) → u = v.
Proof. unfold peer_key. simpl py_str. apply String.app_inj. Qed.

Section agreement.
Variables (T t : Z).
Hypothesis Ht : T ≤ t ≤ T + 1800.

Lemma agree_live r m key e :
  agree T r m → hashes r !! key = Some e → live t e = true.
Proof.
  intros (H1 & H2 & H3) He.
  destruct (H3 _ _ He) as (u & -> & [p Hp]).
  destruct (H2 _ _ Hp) as (e' & He' & Hd & _).
  destruct (H1 _ _ Hp) as (_ & _ & _ & Hreg & _).
  replace e' with e in * by congruence.
  unfold live. rewrite Hd. apply Z.leb_le. lia.
Qed.

Lemma agree_live_entry r m key :
  agree T r m → live_entry t key r = hashes r !! key.
Proof.
  intros Ha. unfold live_entry.
  destruct (hashes r !! key) as [e|] eqn:He; [|done].
  by rewrite (agree_live _ _ _ _ Ha He).
Qed.

Lemma agree_absent r m u :
  agree T r m → m !! KStr u = None → hashes r !! peer_key (JStr u) = None.
Proof.
  intros (_ & _ & H3) Hm.
  destruct (hashes r !! peer_key (JStr u)) as [e|] eqn:He; [|done].
  destruct (H3 _ _ He) as (v & Hv & [p Hp]).
  apply peer_key_inj in Hv as ->. congruence.
Qed.

Lemma agree_refresh r m u e st s' :
  agree T r m →
  hashes r !! peer_key (JStr u) = Some e →
  agree T (Redis (<[peer_key (JStr u) := refreshed t st e]> (hashes r)) s') m.
Proof.
  intros (H1 & H2 & H3) He. split; [done|]. split; simpl.
  - intros v p Hp. destruct (H2 _ _ Hp) as (e' & He' & Hd & Hid).
    destruct (decide (v = u)) as [->|Hne].
    + rewrite lookup_insert_eq. replace e' with e in * by congruence.
      eexists. split; [done|]. split; [done|]. exact Hid.
    + rewrite lookup_insert_ne by (intros ?%peer_key_inj; done). eauto.
  - intros key e'.
    destruct (decide (key = peer_key (JStr u))) as [->|Hne].
    + intros _. destruct (H3 _ _ He) as (v & Hv & Hs).
      apply peer_key_inj in Hv as ->. eauto.
    + rewrite lookup_insert_ne by done. apply H3.
Qed.

Lemma agree_insert r m u i q s' :
  agree T r m →
  m !! KStr u = None →
  agree T
    (Redis (<[peer_key (JStr u) :=
                REntry (rendered (PeerInfo (JStr u) i q "online" t t))
                       (Some (t + 3600))]> (hashes r)) s')
    (<[KStr u := PeerInfo (JStr u) i q "online" t t]> m).
Proof.
  intros (H1 & H2 & H3) Hm. split; [|split]; simpl.
  - intros k p. destruct (decide (k = KStr u)) as [->|Hne].
    + rewrite lookup_insert_eq. intros [= <-]. exists u. simpl.
      repeat split; [lia|lia].
    + rewrite lookup_insert_ne by done. apply H1.
  - intros v p. destruct (decide (v = u)) as [->|Hne].
    + rewrite !lookup_insert_eq. intros [= <-].
      eexists. split; [done|]. split; [done|]. apply same_identity_refl.
    + rewrite lookup_insert_ne by congruence.
      rewrite lookup_insert_ne by (intros ?%peer_key_inj; done). apply H2.
  - intros key e. destruct (decide (key = peer_key (JStr u))) as [->|Hne].
    + intros _. exists u. by rewrite lookup_insert_eq.
    + rewrite lookup_insert_ne by done. intros He.
      destruct (H3 _ _ He) as (v & -> & Hs). exists v. split; [done|].
      rewrite lookup_insert_ne; [done|]. congruence.
Qed.

Lemma all_online_refresh r m u e s' :
  all_online r m →
  hashes r !! peer_key (JStr u) = Some e →
  online_peers r ⊆ s' → u ∈ s' →
  all_online (Redis (<[peer_key (JStr u) := refreshed t "online" e]> (hashes r)) s') m.
Proof.
  intros Ho He Hsub Hu v p Hp. destruct (Ho _ _ Hp) as (Hin & e' & He' & Hst).
  simpl. destruct (decide (v = u)) as [->|Hne].
  - split; [done|]. rewrite lookup_insert_eq. eauto.
  - split; [by apply Hsub|].
    rewrite lookup_insert_ne by (intros ?%peer_key_inj; done). eauto.
Qed.

Lemma all_online_insert r m u i q s' :
  all_online r m →
  online_peers r ⊆ s' → u ∈ s' →
  all_online
    (Redis (<[peer_key (JStr u) :=
                REntry (rendered (PeerInfo (JStr u) i q "online" t t))
                       (Some (t + 3600))]> (hashes r)) s')
    (<[KStr u := PeerInfo (JStr u) i q "online" t t]> m).
Proof.
  intros Ho Hsub Hu v p. simpl. destruct (decide (v = u)) as [->|Hne].
  - intros _. split; [done|]. rewrite lookup_insert_eq. eauto.
  - rewrite lookup_insert_ne by congruence. intros Hp.
    destruct (Ho _ _ Hp) as (Hin & e' & He' & Hst).
    split; [by apply Hsub|].
    rewrite lookup_insert_ne by (intros ?%peer_key_inj; done). eauto.
Qed.

(** Within the window a round of the clean-up loop deletes nothing. *)
Lemma agree_sweep r m :
  agree T r m → cleanup_old_peers t (InMemory m) = InMemory m.
Proof.
  intros (H1 & _ & _).
  destruct (cleanup_old_peers_lookup t m KNone) as (m' & Hm' & _).
  rewrite Hm'. f_equal. apply map_eq. intros k.
  destruct (cleanup_old_peers_lookup t m k) as (m'' & Hm'' & Hk).
  replace m'' with m' in * by congruence. rewrite Hk.
  destruct (m !! k) as [p|] eqn:Hp; [|done].
  destruct (H1 _ _ Hp) as (_ & _ & Hseen & _).
  rewrite decide_False by lia. done.
Qed.

(** One call, made within the window, on both stores. *)
Lemma agree_step c r m :
  well_typed c → agree T r m →
  ∃ r' m',
    perform t c (RedisBacked r) = RedisBacked r' ∧
    perform t c (InMemory m) = InMemory m' ∧
    agree T r' m' ∧
    (¬ is_unregister c → all_online r m → all_online r' m').
Proof.
  intros Hc Ha. destruct c as [u i q|u|u|].
  - destruct Hc as [Hi Hq].
    rewrite (perform_register_redis _ _ _ _ _ Hi Hq), perform_register_memory.
    rewrite (agree_live_entry _ _ _ Ha).
    destruct (m !! KStr u) as [p|] eqn:Hp.
    + destruct Ha as (H1 & H2 & H3).
      destruct (H2 _ _ Hp) as (e & He & _). rewrite He.
      eexists _, _. split; [done|]. split; [done|]. split.
      * by apply agree_refresh.
      * intros _ Ho. apply all_online_refresh;
        [done|done|apply union_subseteq_r|by apply elem_of_union_l, elem_of_singleton].
    + rewrite (agree_absent _ _ _ Ha Hp).
      eexists _, _. split; [done|]. split; [done|]. split.
      * by apply agree_insert.
      * intros _ Ho. apply all_online_insert;
        [done|apply union_subseteq_r|by apply elem_of_union_l, elem_of_singleton].
  - rewrite (perform_update_redis t u r false).
    unfold perform. rewrite heartbeat_memory_state.
    rewrite (agree_live_entry _ _ _ Ha).
    destruct (hashes r !! peer_key (JStr u)) as [e|] eqn:He;
      [destruct (decide (u = ""))|]; eexists _, _;
      (split; [done|]); (split; [done|]); try (split; [by destruct r|done]).
    split; [by apply agree_refresh|].
    intros _ Ho. apply all_online_refresh;
        [done|done|apply union_subseteq_r|by apply elem_of_union_l, elem_of_singleton].
  - rewrite (perform_update_redis t u r true).
    unfold perform. rewrite unregister_memory_state.
    rewrite (agree_live_entry _ _ _ Ha).
    destruct (hashes r !! peer_key (JStr u)) as [e|] eqn:He;
      [destruct (decide (u = ""))|]; eexists _, _;
      (split; [done|]); (split; [done|]); try (split; [by destruct r|done]).
    split; [by apply agree_refresh|]. intros Hn. by destruct Hn.
  - exists r, m. split; [done|]. split; [exact (agree_sweep _ _ Ha)|done].
Qed.

(** What a reader sees, on both stores. *)
Lemma agree_lookup r m u :
  agree T r m →
  match get_peer_info t (JStr u) (RedisBacked r),
        get_peer_info t (JStr u) (InMemory m) with
  | Some pr, Some pm => same_identity pr (rendered pm)
  | None, None => True
  | _, _ => False
  end.
Proof.
  intros Ha. simpl. unfold hgetall. rewrite (agree_live_entry _ _ _ Ha).
  destruct (m !! KStr u) as [p|] eqn:Hp.
  - destruct Ha as (_ & H2 & _). destruct (H2 _ _ Hp) as (e & -> & _ & Hid). done.
  - by rewrite (agree_absent _ _ _ Ha Hp).
Qed.

Lemma agree_lists r m :
  agree T r m → all_online r m →
  (∀ pr, pr ∈ online_list t (RedisBacked r) →
     ∃ pm, pm ∈ online_list t (InMemory m) ∧
           same_identity pr (rendered pm) ∧ status pr = status pm) ∧
  (∀ pm, pm ∈ online_list t (InMemory m) →
     ∃ pr, pr ∈ online_list t (RedisBacked r) ∧
           same_identity pr (rendered pm) ∧ status pr = status pm).
Proof.
  intros Ha Ho. pose proof Ha as (H1 & H2 & H3). unfold online_list. split.
  - intros pr [Hst Hin]%list_elem_of_filter. simpl in Hin.
    apply list_elem_of_omap in Hin as (u & _ & Hu).
    apply hgetall_Some in Hu as (e & He & <-).
    apply live_entry_Some in He as [He _].
    destruct (H3 _ _ He) as (v & Hv & [p Hp]).
    change ("peer:" +:+ u) with (peer_key (JStr u)) in Hv.
    apply peer_key_inj in Hv as <-.
    destruct (H2 _ _ Hp) as (e' & He' & _ & Hid).
    change ("peer:" +:+ u) with (peer_key (JStr u)) in He.
    replace e' with e in * by congruence.
    destruct (H1 _ _ Hp) as (_ & _ & _ & _ & Hon).
    exists p. split; [|split; [done|congruence]].
    apply list_elem_of_filter. split; [done|]. simpl.
    apply list_elem_of_fmap. exists (KStr u, p). split; [done|].
    by apply elem_of_map_to_list.
  - intros pm [Hst Hin]%list_elem_of_filter. simpl in Hin.
    apply list_elem_of_fmap in Hin as ([k p] & -> & Hin).
    apply elem_of_map_to_list in Hin. simpl in *.
    destruct (H1 _ _ Hin) as (u & -> & _).
    destruct (Ho _ _ Hin) as (Hu & e & He & Hon).
    destruct (H2 _ _ Hin) as (e' & He' & _ & Hid).
    replace e' with e in * by congruence.
    exists (hash e). split; [|split; [done|congruence]].
    apply list_elem_of_filter. split; [done|]. simpl.
    apply list_elem_of_omap. exists u.
    split; [unfold smembers; by apply elem_of_elements|].
    apply hgetall_Some. exists e. split; [|done].
    change ("peer:" +:+ u) with (peer_key (JStr u)).
    by rewrite (agree_live_entry _ _ _ Ha).
Qed.
End agreement.

Lemma agree_empty T : agree T (Redis ∅ ∅) ∅ ∧ all_online (Redis ∅ ∅) ∅.
Proof.
  split; [split; [|split]|]; simpl.
  - intros k p. by rewrite lookup_empty.
  - intros u p. by rewrite lookup_empty.
  - intros key e. by rewrite lookup_empty.
  - intros u p. by rewrite lookup_empty.
Qed.

Lemma run_agree T trace r m :
  Forall (λ tc, (T ≤ tc.1 ≤ T + 1800) ∧ well_typed tc.2) trace →
  agree T r m →
  ∃ r' m',
    run trace (RedisBacked r) = RedisBacked r' ∧
    run trace (InMemory m) = InMemory m' ∧
    agree T r' m' ∧
    (Forall (λ tc, ¬ is_unregister tc.2) trace → all_online r m → all_online r' m').
Proof.
  intros Hall. revert r m.
  induction Hall as [|[t c] trace [Ht Hc] _ IH]; intros r m Ha.
  - exists r, m. done.
  - destruct (agree_step T t Ht c r m Hc Ha) as (r1 & m1 & Hr1 & Hm1 & Ha1 & Ho1).
    destruct (IH r1 m1 Ha1) as (r2 & m2 & Hr2 & Hm2 & Ha2 & Ho2).
    exists r2, m2. unfold run in *. simpl. rewrite Hr1, Hm1.
    split; [done|]. split; [done|]. split; [done|].
    intros [Hn Hns]%Forall_cons Ho. auto.
Qed.

(** C3 (counterexample).  Alice registers with the integer port 9000: the
    Redis store hands her record back with the text "9000", the in-memory
    store with the number.  And once a round of the clean-up loop has run
    35 minutes later, the in-memory store has forgotten her while the Redis
    store still finds her. *)
Lemma stores_answer_differently :
  (get_peer_info 0 alice (perform 0 alice_registers empty_redis) =
     Some (PeerInfo alice (JStr "10.0.0.1") (JStr "9000") "online" 0 0) ∧
   get_peer_info 0 alice (perform 0 alice_registers empty_memory) =
     Some (PeerInfo alice (JStr "10.0.0.1") (JNum 9000) "online" 0 0) ∧
   JStr "9000" ≠ JNum 9000) ∧
  (get_peer_info 2100 alice (run alice_then_sweep empty_redis) =
     Some (PeerInfo alice (JStr "10.0.0.1") (JStr "9000") "online" 0 0) ∧
   get_peer_info 2100 alice (run alice_then_sweep empty_memory) = None).
Proof. repeat split; try (vm_compute; reflexivity); discriminate. Qed.

(** C3 (amended).  Start both stores empty and make the same calls
    ([/register] with text or integer address fields, [/heartbeat],
    [/unregister], all with text usernames, interleaved with rounds of the
    clean-up loop) within 30 minutes.  Then a lookup made in that window
    finds a record in one store exactly when it does in the other, and the
    two records have the same username, address, port and [registered_at],
    the Redis store rendering every value as text.  If moreover no call is
    an [/unregister], the two lists of online peers hold the same records in
    that sense, with the same status. *)
Theorem stores_agree_within_the_window T trace :
  Forall (λ tc, (T ≤ tc.1 ≤ T + 1800) ∧ well_typed tc.2) trace →
  (∀ t u, T ≤ t ≤ T + 1800 →
     match get_peer_info t (JStr u) (run trace empty_redis),
           get_peer_info t (JStr u) (run trace empty_memory) with
     | Some pr, Some pm => same_identity pr (rendered pm)
     | None, None => True
     | _, _ => False
     end) ∧
  (Forall (λ tc, ¬ is_unregister tc.2) trace →
   ∀ t, T ≤ t ≤ T + 1800 →
     (∀ pr, pr ∈ online_list t (run trace empty_redis) →
        ∃ pm, pm ∈ online_list t (run trace empty_memory) ∧
              same_identity pr (rendered pm) ∧ status pr = status pm) ∧
     (∀ pm, pm ∈ online_list t (run trace empty_memory) →
        ∃ pr, pr ∈ online_list t (run trace empty_redis) ∧
              same_identity pr (rendered pm) ∧ status pr = status pm)).
Proof.
  intros Hall.
  destruct (agree_empty T) as [Ha0 Ho0].
  destruct (run_agree T trace _ _ Hall Ha0) as (r & m & Hr & Hm & Ha & Ho).
  unfold empty_redis, empty_memory. rewrite Hr, Hm. split.
  - intros t u Ht. by apply (agree_lookup T t Ht).
  - intros Hn t Ht. apply (agree_lists T t Ht); auto.
Qed.

(** A registration and a heartbeat, read within the window. *)
Lemma stores_agree_within_the_window_witness :
  match get_peer_info 100 (JStr "alice") (run alice_then_heartbeat empty_redis),
        get_peer_info 100 (JStr "alice") (run alice_then_heartbeat empty_memory) with
  | Some pr, Some pm => same_identity pr (rendered pm)
  | None, None => True
  | _, _ => False
  end.
Proof.
  apply (proj1 (stores_agree_within_the_window 0 alice_then_heartbeat
    ltac:(repeat constructor; simpl; lia))).
  lia.
Defined.

(** ** The session table *)

Lemma connected_true name self :
  Peer.connected name self = true ↔ is_Some (Peer.connections self !! dict_key name).
Proof. unfold Peer.connected. apply bool_decide_eq_true. Qed.

Lemma connected_false name self :
  Peer.connected name self = false ↔ Peer.connections self !! dict_key name = None.
Proof.
  unfold Peer.connected. rewrite bool_decide_eq_false.
  split; [by apply eq_None_not_Some|]. intros -> [? ?]. done.
Qed.

(** The listener leaves the table as it is or binds the requester's name
    to the accepted socket. *)
Lemma handle_incoming_connection_table s data answer ok self :
  let self' := Peer.handle_incoming_connection s data answer ok self in
  Peer.connections self' = Peer.connections self ∨
  ∃ m, data = Peer.Object m ∧
       Peer.connections self' =
         <[dict_key (Peer.get "username" JNull m) := s]> (Peer.connections self).
Proof.
  unfold Peer.handle_incoming_connection.
  destruct data as [| |m| |]; simpl; auto.
  destruct (bool_decide _); auto.
  destruct answer as [response|]; simpl; auto.
  destruct (String.eqb _ _), ok; simpl; eauto.
Qed.

(** C5.  A node in session with a peer, on the socket [old], gets a
    [connect_request] under that peer's name on a fresh socket [s], and the
    console accepts it.  The entry of the name is rebound to [s] and [old]
    is not closed: the loops of the first session go on running beside
    those of the second, so the node has two live sessions for one name.
    When the inbound loop of the first session later ends, it removes the
    entry, which by then belongs to the second session, and closes [old]
    only: [s] stays open and is in no table.  The dialer, for the same
    duplicate, stops before any socket is opened and leaves the node as it
    is. *)
Theorem duplicate_accept_starts_a_second_session
    s old (target : string) m response self :
  Peer.connections self !! KStr target = Some old →
  Peer.is_running self = true →
  Peer.get "type" JNull m = JStr "connect_request" →
  Peer.get "username" JNull m = JStr target →
  Peer.lower response = "y" →
  let self' :=
    Peer.handle_incoming_connection s (Peer.Object m) (Peer.Line response) true self in
  let ended := (Peer.receive_messages (JStr target) old [Peer.Empty] self').1 in
  Peer.connections self' !! KStr target = Some s ∧
  Peer.closes self' = Peer.closes self ∧
  Peer.receive_messages (JStr target) old [] self' = (self', Peer.Running) ∧
  Peer.send_messages (JStr target) old [] self' = (self', Peer.Running) ∧
  Peer.receive_messages (JStr target) s [] self' = (self', Peer.Running) ∧
  Peer.send_messages (JStr target) s [] self' = (self', Peer.Running) ∧
  Peer.connections ended !! KStr target = None ∧
  Peer.closes ended = (Peer.closes self ++ [old])%list ∧
  (∀ now info s' io,
     Peer.connect_to_peer now target (Some info) s' io self = (self, true)).
Proof.
  intros Hold Hrun Htype Hname Hy self' ended.
  assert (Hself' : self' = Peer.set_connection (JStr target) s
                             (Peer.send s (Peer.accept_msg self) self)).
  { unfold self', Peer.handle_incoming_connection.
    rewrite bool_decide_eq_true_2 by done. by rewrite Hy, Hname. }
  assert (Hconn : Peer.connected (JStr target) self' = true).
  { apply connected_true. rewrite Hself'. simpl. rewrite lookup_insert_eq. eauto. }
  assert (Hrun' : Peer.is_running self' = true) by (by rewrite Hself').
  split; [rewrite Hself'; simpl; apply lookup_insert_eq|].
  split; [by rewrite Hself'|].
  unfold ended. simpl. rewrite Hrun', Hconn. simpl.
  repeat (split; [done|]).
  unfold Peer.clean_up. rewrite Hconn. simpl.
  split; [apply lookup_delete_eq|]. split; [by rewrite Hself'|].
  intros now info s' io. unfold Peer.connect_to_peer.
  assert (Peer.connected (JStr target) self = true) as ->; [|done].
  apply connected_true. simpl. eauto.
Qed.

(** Alice, in session with bob on socket 7, accepts a request under bob's
    name on socket 8. *)
Lemma duplicate_accept_starts_a_second_session_witness :
  Peer.connections alice_after_duplicate !! KStr "bob" = Some 8%nat ∧
  Peer.closes alice_after_duplicate = Peer.closes alice_node ∧
  Peer.receive_messages (JStr "bob") 7%nat [] alice_after_duplicate =
    (alice_after_duplicate, Peer.Running) ∧
  Peer.send_messages (JStr "bob") 7%nat [] alice_after_duplicate =
    (alice_after_duplicate, Peer.Running) ∧
  Peer.receive_messages (JStr "bob") 8%nat [] alice_after_duplicate =
    (alice_after_duplicate, Peer.Running) ∧
  Peer.send_messages (JStr "bob") 8%nat [] alice_after_duplicate =
    (alice_after_duplicate, Peer.Running) ∧
  Peer.connections
    (Peer.receive_messages (JStr "bob") 7%nat [Peer.Empty] alice_after_duplicate).1
    !! KStr "bob" = None ∧
  Peer.closes
    (Peer.receive_messages (JStr "bob") 7%nat [Peer.Empty] alice_after_duplicate).1
    = (Peer.closes alice_node ++ [7%nat])%list ∧
  (∀ now info s' io,
     Peer.connect_to_peer now "bob" (Some info) s' io alice_node = (alice_node, true)).
Proof.
  apply (duplicate_accept_starts_a_second_session 8%nat 7%nat "bob"
           (Peer.connect_request 0 bob_node) "y" alice_node); reflexivity.
Defined.

(** ** The handshake *)



(** ** The chat loops *)

(** Whenever the inbound loop leaves its [while], the entry is gone from
    the table and [close] has been called once more on the socket. *)
Lemma receive_messages_stopped name s events self self' :
  Peer.receive_messages name s events self = (self', Peer.Stopped) →
  Peer.connected name self' = false ∧
  Peer.closes self' = (Peer.closes self ++ [s])%list.
Proof.
  assert (Hclean : ∀ self0,
    Peer.connected name (Peer.clean_up name s self0) = false ∧
    Peer.closes (Peer.clean_up name s self0) = (Peer.closes self0 ++ [s])%list).
  { intros self0. unfold Peer.clean_up.
    destruct (Peer.connected name self0) eqn:Hc; (split; [|done]);
      apply connected_false; simpl.
    - apply lookup_delete_eq.
    - by apply connected_false in Hc. }
  revert self. induction events as [|ev events IH]; intros self; simpl.
  - destruct (_ && _); [done|]. intros [= <-]. apply Hclean.
  - destruct (_ && _); [|intros [= <-]; apply Hclean].
    destruct ev as [| |m| |]; try (intros [= <-]; apply Hclean).
    destruct (bool_decide (Peer.get "type" JNull m = JStr "message")).
    + intros Hrest. by apply IH in Hrest.
    + destruct (bool_decide (Peer.get "type" JNull m = JStr "disconnect")).
      * intros [= <-]. apply Hclean.
      * apply IH.
Qed.

(** The same holds of the outbound loop when it ends on [/exit] and the
    disconnect message could be sent. *)
Lemma send_messages_exit name s now message rest self :
  Peer.is_running self = true → Peer.connected name self = true →
  Peer.lower message = "/exit" →
  ∃ self',
    Peer.send_messages name s (Peer.Turn now (Peer.Line message) true :: rest) self =
      (self', Peer.Stopped) ∧
    Peer.connected name self' = false ∧
    Peer.closes self' = (Peer.closes self ++ [s])%list ∧
    Peer.sent self' = (Peer.sent self ++ [(s, Peer.disconnect_msg now self)])%list.
Proof.
  intros Hrun Hconn Hexit. simpl. rewrite Hrun, Hconn, Hexit. simpl.
  assert (Peer.connected name (Peer.send s (Peer.disconnect_msg now self) self) = true)
    as -> by done.
  eexists. split; [reflexivity|]. split; [|done].
  apply connected_false. simpl. apply lookup_delete_eq.
Qed.

(** C6.  When the outbound loop ends on an error (the [send] of a chat
    line or of the disconnect message raises, or [input()] fails), it
    leaves the node exactly as it was: the entry stays in the table and
    [close] is not called.  Alice, chatting with bob on socket 7, types a
    line whose [send] fails: her loop has stopped, bob is still in her
    table and socket 7 is still open. *)
Theorem outbound_error_leaves_the_session :
  (∀ name s now message ok rest self,
     Peer.send_messages name s (Peer.Turn now (Peer.Line message) false :: rest) self
       = (self, Peer.Stopped) ∧
     Peer.send_messages name s (Peer.Turn now Peer.InputFails ok :: rest) self
       = (self, Peer.Stopped)) ∧
  Peer.send_messages (JStr "bob") 7%nat [Peer.Turn 5 (Peer.Line "hello") false] alice_node
    = (alice_node, Peer.Stopped) ∧
  Peer.connected (JStr "bob") alice_node = true ∧
  ¬ Peer.closed 7%nat alice_node.
Proof.
  split; [|split; [reflexivity|split; [reflexivity|]]].
  - intros name s now message ok rest self. simpl.
    destruct (_ && _); [|done]. by destruct (String.eqb _ _).
  - unfold Peer.closed. simpl. apply not_elem_of_nil.
Qed.

(** * Further properties of the registry *)

(** ** The answers of [/register] *)

Lemma encode_mapping_encodable u i q st t t' :
  encodable u → encodable i → encodable q →
  encode_mapping (PeerInfo u i q st t t') = Ok (rendered (PeerInfo u i q st t t')).
Proof.
  intros Hu Hi Hq. unfold encode_mapping. cbn [username ip_address port].
  by rewrite (redis_encode_encodable _ Hu), (redis_encode_encodable _ Hi),
    (redis_encode_encodable _ Hq).
Qed.

Lemma encode_mapping_raises p :
  ¬ (encodable (username p) ∧ encodable (ip_address p) ∧ encodable (port p)) →
  encode_mapping p = Raise DataError.
Proof.
  intros Hn. unfold encode_mapping.
  destruct (username p) as [|?|?|?], (ip_address p) as [|?|?|?],
    (port p) as [|?|?|?]; simpl in *; try done; exfalso; apply Hn; done.
Qed.

Lemma register_peer_redis_new now u i q r :
  encodable u → encodable i → encodable q →
  live_entry now (peer_key u) r = None →
  register_peer now u i q (RedisBacked r) =
    (RedisBacked (Redis
       (<[peer_key u := REntry (rendered (PeerInfo u i q "online" now now))
                               (Some (now + 3600))]> (hashes r))
       ({[py_str u]} ∪ online_peers r)),
     Ok (PeerInfo u i q "online" now now)).
Proof.
  intros Hu Hi Hq He. unfold register_peer, hset_mapping.
  rewrite (encode_mapping_encodable _ _ _ _ _ _ Hu Hi Hq), He.
  unfold expire. rewrite live_entry_insert_eq by done. simpl.
  rewrite insert_insert_eq. unfold sadd.
  by rewrite (redis_encode_encodable _ Hu).
Qed.

(** The three fields being present, the view goes on to the store. *)
Lemma register_present now fields self u i q :
  Api.assoc "username" fields = Some u →
  Api.assoc "ip_address" fields = Some i →
  Api.assoc "port" fields = Some q →
  Api.code (Api.register now (Api.JsonValue (Api.DObj fields)) self).2 ≠ 400.
Proof.
  intros Hu Hi Hq. unfold Api.register.
  rewrite (register_view_object _ _ _ _ _ _ Hu Hi Hq).
  destruct (get_peer_info now u self).
  - by destruct (update_peer_status now u "online" self) as [? [[]|?]].
  - by destruct (register_peer now u i q self) as [? [?|?]].
Qed.

(** A JSON object is answered 400 exactly when it lacks one of
    [username], [ip_address], [port]; the store is then left as it was. *)
Theorem register_400_iff_field_missing now fields self :
  (Api.code (Api.register now (Api.JsonValue (Api.DObj fields)) self).2 = 400 ↔
   ∃ field, field ∈ Api.required_fields ∧ Api.assoc field fields = None) ∧
  (Api.code (Api.register now (Api.JsonValue (Api.DObj fields)) self).2 = 400 →
   (Api.register now (Api.JsonValue (Api.DObj fields)) self).1 = self).
Proof.
  assert (Hmiss : Api.code (Api.register now (Api.JsonValue (Api.DObj fields)) self).2
                  = 400 →
                  ∃ field, field ∈ Api.required_fields ∧ Api.assoc field fields = None).
  { intros Hc. unfold Api.required_fields.
    destruct (Api.assoc "username" fields) as [u|] eqn:Hu;
      [|exists "username"; split; [repeat constructor|done]].
    destruct (Api.assoc "ip_address" fields) as [i|] eqn:Hi;
      [|exists "ip_address"; split; [repeat constructor|done]].
    destruct (Api.assoc "port" fields) as [q|] eqn:Hq;
      [|exists "port"; split; [repeat constructor|done]].
    by destruct (register_present now fields self u i q). }
  split; [split; [done|]|].
  - intros H. by apply register_missing_field.
  - intros Hc. by apply register_missing_field, Hmiss.
Qed.

Lemma register_code_200_or_201 now fields self u i q :
  Api.assoc "username" fields = Some u →
  Api.assoc "ip_address" fields = Some i →
  Api.assoc "port" fields = Some q →
  accepts self u i q →
  Api.code (Api.register now (Api.JsonValue (Api.DObj fields)) self).2 =
    match get_peer_info now u self with
    | Some _ => 200
    | None => 201
    end.
Proof.
  intros Hu Hi Hq Hacc. unfold Api.register.
  rewrite (register_view_object _ _ _ _ _ _ Hu Hi Hq).
  destruct self as [r|peers].
  - destruct Hacc as (Eu & Ei & Eq). simpl get_peer_info. unfold hgetall.
    destruct (live_entry now (peer_key u) r) as [e|] eqn:He; simpl fmap.
    + by rewrite (update_peer_status_redis_live now u _ "online" r e
                    (redis_encode_encodable _ Eu) He).
    + by rewrite (register_peer_redis_new _ _ _ _ _ Eu Ei Eq He).
  - simpl. by destruct (peers !! dict_key u).
Qed.

(** With the three fields present and each a text or an integer, the
    answer is 200 when a record is found for the username and 201 when
    none is, on either store; it is never 500. *)
Theorem register_answers_200_or_201 now fields self u i q :
  Api.assoc "username" fields = Some u →
  Api.assoc "ip_address" fields = Some i →
  Api.assoc "port" fields = Some q →
  encodable u → encodable i → encodable q →
  Api.code (Api.register now (Api.JsonValue (Api.DObj fields)) self).2 =
    match get_peer_info now u self with
    | Some _ => 200
    | None => 201
    end.
Proof.
  intros Hu Hi Hq Eu Ei Eq.
  apply (register_code_200_or_201 now fields self u i q Hu Hi Hq).
  by destruct self.
Qed.

Lemma register_answers_200_or_201_witness :
  Api.code (Api.register 60 alice_second (alice_on empty_redis)).2 = 200.
Proof.
  apply (register_answers_200_or_201 60
    [("username", alice); ("ip_address", JStr "10.0.0.2"); ("port", JStr "9001")]
    (alice_on empty_redis) alice (JStr "10.0.0.2") (JStr "9001"));
    try reflexivity; exact I.
Defined.

(** On Redis a registration one of whose fields is null or a boolean, for
    a username that is not found, is answered 500 and stores nothing; the
    dictionary takes the same registration and answers 201. *)
Theorem register_null_field now fields u i q :
  Api.assoc "username" fields = Some u →
  Api.assoc "ip_address" fields = Some i →
  Api.assoc "port" fields = Some q →
  ¬ (encodable u ∧ encodable i ∧ encodable q) →
  (∀ r, get_peer_info now u (RedisBacked r) = None →
     Api.register now (Api.JsonValue (Api.DObj fields)) (RedisBacked r) =
       (RedisBacked r, Api.Response (Api.Failed "Registration failed" DataError) 500)) ∧
  (∀ peers, get_peer_info now u (InMemory peers) = None →
     Api.register now (Api.JsonValue (Api.DObj fields)) (InMemory peers) =
       (InMemory (<[dict_key u := PeerInfo u i q "online" now now]> peers),
        Api.Response (Api.PeerMsg "Peer registered successfully"
                        (PeerInfo u i q "online" now now)) 201)).
Proof.
  intros Hu Hi Hq Hn. split.
  - intros r Hnone. unfold Api.register.
    rewrite (register_view_object _ _ _ _ _ _ Hu Hi Hq), Hnone.
    unfold register_peer, hset_mapping. by rewrite encode_mapping_raises.
  - intros peers Hnone. unfold Api.register.
    by rewrite (register_view_object _ _ _ _ _ _ Hu Hi Hq), Hnone.
Qed.

Lemma register_null_field_witness :
  Api.register 0 (register_request alice JNull (JNum 9000)) empty_redis =
    (empty_redis, Api.Response (Api.Failed "Registration failed" DataError) 500).
Proof.
  apply (proj1 (register_null_field 0
    [("username", alice); ("ip_address", JNull); ("port", JNum 9000)]
    alice JNull (JNum 9000) eq_refl eq_refl eq_refl ltac:(simpl; tauto))).
  reflexivity.
Defined.

(** ** Registration, then reading *)

Lemma get_peers_online_list now self :
  Api.get_peers now self =
    (self, Api.Response
             (Api.PeerList (length (online_list now self)) (online_list now self)) 200).
Proof. done. Qed.

Lemma register_new_state now fields self u i q :
  Api.assoc "username" fields = Some u →
  Api.assoc "ip_address" fields = Some i →
  Api.assoc "port" fields = Some q →
  accepts self u i q →
  get_peer_info now u self = None →
  (Api.register now (Api.JsonValue (Api.DObj fields)) self).1 =
    match self with
    | RedisBacked r =>
        RedisBacked (Redis
          (<[peer_key u := REntry (rendered (PeerInfo u i q "online" now now))
                                  (Some (now + 3600))]> (hashes r))
          ({[py_str u]} ∪ online_peers r))
    | InMemory peers =>
        InMemory (<[dict_key u := PeerInfo u i q "online" now now]> peers)
    end.
Proof.
  intros Hu Hi Hq Hacc Hnone. unfold Api.register.
  rewrite (register_view_object _ _ _ _ _ _ Hu Hi Hq), Hnone.
  destruct self as [r|peers]; [|done].
  destruct Hacc as (Eu & Ei & Eq). simpl in Hnone. unfold hgetall in Hnone.
  destruct (live_entry now (peer_key u) r) eqn:He; [done|].
  by rewrite (register_peer_redis_new _ _ _ _ _ Eu Ei Eq He).
Qed.

(** A registration that creates a record can be read back: a lookup of
    the username finds the record that was posted, online, with both
    timestamps at the instant of the call (as text on Redis, and there for
    one hour); the usernames kept elsewhere are found as before. *)
Theorem register_then_lookup now fields self u i q :
  Api.assoc "username" fields = Some u →
  Api.assoc "ip_address" fields = Some i →
  Api.assoc "port" fields = Some q →
  accepts self u i q →
  get_peer_info now u self = None →
  let self' := (Api.register now (Api.JsonValue (Api.DObj fields)) self).1 in
  (∀ now', holds_at self now now' →
     get_peer_info now' u self' =
       Some (stored_as self (PeerInfo u i q "online" now now))) ∧
  (∀ now' v, ¬ same_slot self u v →
     get_peer_info now' v self' = get_peer_info now' v self).
Proof.
  intros Hu Hi Hq Hacc Hnone self'. unfold self'.
  rewrite (register_new_state _ _ _ _ _ _ Hu Hi Hq Hacc Hnone).
  destruct self as [r|peers]; simpl; split.
  - intros now' Hlive. unfold hgetall.
    rewrite live_entry_insert_eq; [done|]. apply Z.leb_le. simpl in *. lia.
  - intros now' v Hv. unfold hgetall.
    rewrite live_entry_insert_ne; [by destruct r|].
    unfold peer_key. intros Heq. by apply String.app_inj in Heq.
  - intros now' _. by rewrite lookup_insert_eq.
  - intros now' v Hv. by rewrite lookup_insert_ne.
Qed.

Lemma register_then_lookup_witness :
  get_peer_info 1000 alice (Api.register 0 alice_first empty_redis).1 =
    Some (stored_as empty_redis
            (PeerInfo alice (JStr "10.0.0.1") (JStr "9000") "online" 0 0)).
Proof.
  refine (proj1 (register_then_lookup 0
    [("username", alice); ("ip_address", JStr "10.0.0.1"); ("port", JStr "9000")]
    empty_redis alice (JStr "10.0.0.1") (JStr "9000")
    eq_refl eq_refl eq_refl _ eq_refl) 1000 _).
  - simpl. tauto.
  - simpl. lia.
Defined.

Lemma register_new_in_online_list now fields self u i q now' :
  Api.assoc "username" fields = Some u →
  Api.assoc "ip_address" fields = Some i →
  Api.assoc "port" fields = Some q →
  accepts self u i q →
  get_peer_info now u self = None →
  holds_at self now now' →
  stored_as self (PeerInfo u i q "online" now now) ∈
    online_list now' (Api.register now (Api.JsonValue (Api.DObj fields)) self).1.
Proof.
  intros Hu Hi Hq Hacc Hnone Hlive.
  rewrite (register_new_state _ _ _ _ _ _ Hu Hi Hq Hacc Hnone).
  unfold online_list. apply list_elem_of_filter.
  destruct self as [r|peers]; simpl; (split; [done|]).
  - apply list_elem_of_omap. exists (py_str u). split.
    + unfold smembers. simpl. apply elem_of_elements.
      by apply elem_of_union_l, elem_of_singleton.
    + unfold hgetall. change ("peer:" +:+ py_str u) with (peer_key u).
      rewrite live_entry_insert_eq; [done|]. apply Z.leb_le. simpl in *. lia.
  - apply list_elem_of_fmap.
    exists (dict_key u, PeerInfo u i q "online" now now). split; [done|].
    apply elem_of_map_to_list. by rewrite lookup_insert_eq.
Qed.

(** A registration that creates a record puts it on the list of [/peers],
    for as long as the store holds it. *)
Theorem register_then_listed now fields self u i q :
  Api.assoc "username" fields = Some u →
  Api.assoc "ip_address" fields = Some i →
  Api.assoc "port" fields = Some q →
  accepts self u i q →
  get_peer_info now u self = None →
  ∀ now', holds_at self now now' →
    ∃ n peers,
      (Api.get_peers now' (Api.register now (Api.JsonValue (Api.DObj fields)) self).1).2
        = Api.Response (Api.PeerList n peers) 200 ∧
      stored_as self (PeerInfo u i q "online" now now) ∈ peers.
Proof.
  intros Hu Hi Hq Hacc Hnone now' Hlive.
  rewrite get_peers_online_list. eexists _, _. split; [reflexivity|].
  by apply register_new_in_online_list.
Qed.

Lemma register_then_listed_witness :
  ∃ n peers,
    (Api.get_peers 1000 (Api.register 0 alice_first empty_memory).1).2
      = Api.Response (Api.PeerList n peers) 200 ∧
    stored_as empty_memory
      (PeerInfo alice (JStr "10.0.0.1") (JStr "9000") "online" 0 0) ∈ peers.
Proof.
  refine (register_then_listed 0
    [("username", alice); ("ip_address", JStr "10.0.0.1"); ("port", JStr "9000")]
    empty_memory alice (JStr "10.0.0.1") (JStr "9000")
    eq_refl eq_refl eq_refl _ eq_refl 1000 _); exact I.
Defined.

(** ** Unregistering and heartbeats on Redis *)

Lemma redis_encode_py_str v m : redis_encode v = Ok m → m = py_str v.
Proof. destruct v; simpl; congruence. Qed.

Lemma touches_named_hashes now self self' :
  touches now self self' → named_hashes self → named_hashes self'.
Proof.
  intros [|u st|u i q Hnone] Hwf; [done|..].
  - destruct self as [r|peers]; [|done].
    destruct (update_peer_status_redis_hashes now u st r) as [s' ->]. simpl in *.
    intros key e.
    destruct (live_entry now (peer_key u) r) as [e0|] eqn:He0; [|by apply Hwf].
    destruct (proj1 (live_entry_Some _ _ _ _) He0) as [Hh0 _].
    destruct (decide (key = peer_key u)) as [->|Hne].
    + rewrite lookup_insert_eq. intros [= <-]. simpl. by apply (Hwf _ _ Hh0).
    + rewrite lookup_insert_ne by done. apply Hwf.
  - destruct self as [r|peers]; [|done].
    destruct (register_peer_redis_hashes now u i q r) as [->|(p' & s' & Hp' & ->)];
      [done|].
    simpl in *. intros key e.
    destruct (decide (key = peer_key u)) as [->|Hne].
    + rewrite lookup_insert_eq. intros [= <-]. simpl. exists (py_str u).
      split; [done|]. unfold encode_mapping in Hp'. simpl in Hp'.
      destruct (redis_encode u) as [m|] eqn:Hm; [|done].
      apply redis_encode_py_str in Hm as ->.
      destruct (redis_encode i), (redis_encode q); by simplify_eq.
    + rewrite lookup_insert_ne by done. apply Hwf.
Qed.

Lemma reachable_redis_backed self :
  reachable empty_redis self → ∃ r, self = RedisBacked r.
Proof.
  induction 1 as [|now req s _ [r ->]|now req s _ [r ->]|now req s _ [r ->]
                  |now s _ [r ->]].
  - by eexists.
  - pose proof (touches_keeps _ _ _ (register_touches now req (RedisBacked r))) as Hk.
    destruct (Api.register now req (RedisBacked r)).1; [by eexists|done].
  - pose proof (touches_keeps _ _ _ (heartbeat_touches now req (RedisBacked r))) as Hk.
    destruct (Api.heartbeat now req (RedisBacked r)).1; [by eexists|done].
  - pose proof (touches_keeps _ _ _ (unregister_touches now req (RedisBacked r))) as Hk.
    destruct (Api.unregister now req (RedisBacked r)).1; [by eexists|done].
  - by eexists.
Qed.

Lemma reachable_named_hashes self :
  reachable empty_redis self → named_hashes self.
Proof.
  induction 1 as [|now req s _ IH|now req s _ IH|now req s _ IH|now s _ IH].
  - intros key e. simpl. by rewrite lookup_empty.
  - eapply touches_named_hashes; [apply register_touches|done].
  - eapply touches_named_hashes; [apply heartbeat_touches|done].
  - eapply touches_named_hashes; [apply unregister_touches|done].
  - by destruct s.
Qed.

(** [/heartbeat] and [/unregister] for a text username whose Redis hash is
    live. *)
Lemma update_request_redis now (u : string) r e (unreg : bool) :
  u ≠ "" →
  live_entry now (peer_key (JStr u)) r = Some e →
  (if unreg then Api.unregister now (username_request (JStr u)) (RedisBacked r)
   else Api.heartbeat now (username_request (JStr u)) (RedisBacked r)) =
    (RedisBacked (Redis
       (<[peer_key (JStr u) :=
            refreshed now (if unreg then "offline" else "online") e]> (hashes r))
       (if unreg then online_peers r ∖ {[u]} else {[u]} ∪ online_peers r)),
     Api.Response
       (Api.Message (if unreg then "Peer " +:+ u +:+ " unregistered successfully"
                     else "Heartbeat received")) 200).
Proof.
  intros Hne He.
  destruct unreg; unfold Api.heartbeat, Api.unregister, Api.heartbeat_view,
    Api.unregister_view, username_request, Api.get_json, Api.dict_get, Api.assoc;
    rewrite String.eqb_refl; unfold default, id; cbv beta iota;
    rewrite truthy_text, bool_decide_eq_true_2 by done; simpl negb; cbv iota;
    by rewrite (update_peer_status_redis_live now (JStr u) u _ r e eq_refl He).
Qed.

(** On Redis, unregistering a username that has a record keeps the record:
    a lookup still finds it, now offline and last seen at the instant of
    the call, and from then on [/peers] lists no record of that username,
    whenever it is read. *)
Theorem unregister_keeps_the_record_offline now (u : string) self p :
  reachable empty_redis self →
  u ≠ "" →
  get_peer_info now (JStr u) self = Some p →
  ∃ self',
    Api.unregister now (username_request (JStr u)) self =
      (self', Api.Response
                (Api.Message ("Peer " +:+ u +:+ " unregistered successfully")) 200) ∧
    get_peer_info now (JStr u) self' =
      Some (set_last_seen now (set_status "offline" p)) ∧
    (∀ now' n peers,
       (Api.get_peers now' self').2 = Api.Response (Api.PeerList n peers) 200 →
       ∀ q, q ∈ peers → username q ≠ JStr u).
Proof.
  intros Hreach Hne Hg.
  pose proof (reach_unregister _ now (username_request (JStr u)) _ Hreach) as Hreach'.
  apply reachable_named_hashes in Hreach'.
  destruct (reachable_redis_backed _ Hreach) as [r ->].
  simpl in Hg. apply hgetall_Some in Hg as (e & He & <-).
  destruct (proj1 (live_entry_Some _ _ _ _) He) as [_ Hl].
  rewrite (update_request_redis now u r e true Hne He) in *.
  eexists. split; [reflexivity|]. split.
  - simpl. unfold hgetall. by rewrite live_entry_insert_eq.
  - intros now' n peers Hresp q Hq. rewrite get_peers_online_list in Hresp.
    injection Hresp as _ <-. unfold online_list in Hq.
    apply list_elem_of_filter in Hq as [_ Hq]. simpl in Hq.
    apply list_elem_of_omap in Hq as (m & Hm & Hq).
    unfold smembers in Hm. simpl in Hm. apply elem_of_elements in Hm.
    apply elem_of_difference in Hm as [_ Hm].
    apply hgetall_Some in Hq as (e' & He' & <-).
    apply live_entry_Some in He' as [He' _].
    destruct (Hreach' _ _ He') as (k & Hk & ->).
    apply String.app_inj in Hk as <-.
    intros [= ->]. apply Hm. by apply elem_of_singleton.
Qed.

Lemma unregister_keeps_the_record_offline_witness :
  ∃ self',
    Api.unregister 60 (username_request (JStr "alice")) (alice_on empty_redis) =
      (self', Api.Response
                (Api.Message ("Peer " +:+ "alice" +:+ " unregistered successfully")) 200) ∧
    get_peer_info 60 (JStr "alice") self' =
      Some (set_last_seen 60 (set_status "offline" alice_record)) ∧
    (∀ now' n peers,
       (Api.get_peers now' self').2 = Api.Response (Api.PeerList n peers) 200 →
       ∀ q, q ∈ peers → username q ≠ JStr "alice").
Proof.
  apply (unregister_keeps_the_record_offline 60 "alice" (alice_on empty_redis)
           alice_record).
  - exact (reach_register empty_redis 0 alice_first _ (reach_init _)).
  - discriminate.
  - vm_compute. reflexivity.
Defined.

(** On Redis, a heartbeat for a username that has a record, whatever its
    status, sets it online and last seen at the instant of the call, and
    [/peers] lists it again. *)
Theorem heartbeat_brings_back_online now (u : string) r p :
  u ≠ "" →
  get_peer_info now (JStr u) (RedisBacked r) = Some p →
  ∃ self',
    Api.heartbeat now (username_request (JStr u)) (RedisBacked r) =
      (self', Api.Response (Api.Message "Heartbeat received") 200) ∧
    get_peer_info now (JStr u) self' =
      Some (set_last_seen now (set_status "online" p)) ∧
    ∃ n peers,
      (Api.get_peers now self').2 = Api.Response (Api.PeerList n peers) 200 ∧
      set_last_seen now (set_status "online" p) ∈ peers.
Proof.
  intros Hne Hg. simpl in Hg. apply hgetall_Some in Hg as (e & He & <-).
  destruct (proj1 (live_entry_Some _ _ _ _) He) as [_ Hl].
  rewrite (update_request_redis now u r e false Hne He).
  eexists. split; [reflexivity|].
  assert (Hfound : hgetall now (peer_key (JStr u))
            (Redis (<[peer_key (JStr u) := refreshed now "online" e]> (hashes r))
                   ({[u]} ∪ online_peers r)) =
          Some (set_last_seen now (set_status "online" (hash e)))).
  { unfold hgetall. by rewrite live_entry_insert_eq. }
  split; [exact Hfound|].
  rewrite get_peers_online_list. eexists _, _. split; [reflexivity|].
  unfold online_list. apply list_elem_of_filter. split; [done|]. simpl.
  apply list_elem_of_omap. exists u. split; [|exact Hfound].
  unfold smembers. simpl. apply elem_of_elements.
  by apply elem_of_union_l, elem_of_singleton.
Qed.

Lemma heartbeat_brings_back_online_witness :
  ∃ self',
    Api.heartbeat 120 (username_request (JStr "alice")) (RedisBacked alice_offline) =
      (self', Api.Response (Api.Message "Heartbeat received") 200) ∧
    get_peer_info 120 (JStr "alice") self' =
      Some (set_last_seen 120
              (set_status "online" (set_last_seen 60 (set_status "offline" alice_record)))) ∧
    ∃ n peers,
      (Api.get_peers 120 self').2 = Api.Response (Api.PeerList n peers) 200 ∧
      set_last_seen 120
        (set_status "online" (set_last_seen 60 (set_status "offline" alice_record)))
        ∈ peers.
Proof.
  apply (heartbeat_brings_back_online 120 "alice" alice_offline
    (set_last_seen 60 (set_status "offline" alice_record))).
  - discriminate.
  - vm_compute. reflexivity.
Defined.

(** ** The life of a Redis record *)

Lemma no_younger_refl r : no_younger r r.
Proof. intros key e He. eauto. Qed.

Lemma no_younger_trans r1 r2 r3 :
  no_younger r1 r2 → no_younger r2 r3 → no_younger r1 r3.
Proof.
  intros H12 H23 key e3 He3.
  destruct (H23 _ _ He3) as (e2 & He2 & Hd23).
  destruct (H12 _ _ He2) as (e1 & He1 & Hd12).
  exists e1. split; [done|congruence].
Qed.

Lemma update_peer_status_no_younger now u st r :
  ∃ r', (update_peer_status now u st (RedisBacked r)).1 = RedisBacked r' ∧
        no_younger r r'.
Proof.
  destruct (update_peer_status_redis_hashes now u st r) as [s' ->].
  eexists. split; [reflexivity|]. intros key e'. simpl.
  destruct (live_entry now (peer_key u) r) as [e|] eqn:He; [|eauto].
  destruct (proj1 (live_entry_Some _ _ _ _) He) as [Hh _].
  destruct (decide (key = peer_key u)) as [->|Hne].
  - rewrite lookup_insert_eq. intros [= <-]. eauto.
  - rewrite lookup_insert_ne by done. eauto.
Qed.

Lemma heartbeat_no_younger now req r :
  ∃ r', (Api.heartbeat now req (RedisBacked r)).1 = RedisBacked r' ∧ no_younger r r'.
Proof.
  unfold Api.heartbeat. rewrite guarded_fst. unfold Api.heartbeat_view.
  destruct (Api.get_json req) as [data|]; [|eauto using no_younger_refl].
  destruct (Api.dict_get "username" data) as [u|]; [|eauto using no_younger_refl].
  destruct (negb (truthy u)); [eauto using no_younger_refl|].
  destruct (update_peer_status_no_younger now u "online" r) as (r' & Hr' & Hn).
  destruct (update_peer_status now u "online" (RedisBacked r)) as [self' [[]|e]];
    simpl in *; eauto.
Qed.

Lemma heartbeat_loop_no_younger ticks node r :
  ∃ r', Peer.heartbeat_loop ticks node (RedisBacked r) = RedisBacked r' ∧
        no_younger r r'.
Proof.
  revert r. induction ticks as [|[now delivered] ticks IH]; intros r; simpl.
  - eauto using no_younger_refl.
  - destruct (Peer.is_running node); [|eauto using no_younger_refl].
    destruct delivered; [|apply IH].
    destruct (heartbeat_no_younger now
      (Api.JsonValue (Api.DObj [("username", JStr (Peer.username node))])) r)
      as (r1 & -> & Hn1).
    destruct (IH r1) as (r2 & -> & Hn2).
    eauto using no_younger_trans.
Qed.

Lemma heartbeat_loop_reachable ticks node stun :
  reachable empty_redis stun →
  reachable empty_redis (Peer.heartbeat_loop ticks node stun).
Proof.
  revert stun. induction ticks as [|[now delivered] ticks IH]; intros stun Hr; simpl.
  - done.
  - destruct (Peer.is_running node); [|done].
    destruct delivered; apply IH; [by apply reach_heartbeat|done].
Qed.

(** Heartbeats do not prolong the life of a Redis record.  Whatever
    heartbeats the loop of a node delivers, and whenever, a record that was
    found is no longer found once more than one hour has passed since its
    [registered_at], and [/peers] lists no record of its username then. *)
Theorem heartbeats_do_not_prolong now u stun p ticks node now' :
  reachable empty_redis stun →
  get_peer_info now u stun = Some p →
  registered_at p + 3600 < now' →
  get_peer_info now' u (Peer.heartbeat_loop ticks node stun) = None ∧
  (∀ n peers,
     (Api.get_peers now' (Peer.heartbeat_loop ticks node stun)).2 =
       Api.Response (Api.PeerList n peers) 200 →
     ∀ q, q ∈ peers → username q ≠ username p).
Proof.
  intros Hreach Hg Hlate.
  pose proof (reachable_expires_after_an_hour _ Hreach) as Hhour.
  pose proof (reachable_named_hashes _ Hreach) as Hnamed.
  pose proof (reachable_named_hashes _ (heartbeat_loop_reachable ticks node _ Hreach))
    as Hnamed'.
  destruct (reachable_redis_backed _ Hreach) as [r ->].
  destruct (heartbeat_loop_no_younger ticks node r) as (r' & Hr' & Hn).
  rewrite Hr' in *. simpl in Hg, Hhour, Hnamed, Hnamed'.
  apply hgetall_Some in Hg as (e & He & <-).
  apply live_entry_Some in He as [He _].
  assert (Hdead : ∀ e', hashes r' !! peer_key u = Some e' → live now' e' = false).
  { intros e' He'. destruct (Hn _ _ He') as (e0 & He0 & Hd).
    assert (e0 = e) as -> by congruence.
    unfold live. rewrite Hd, (Hhour _ _ He). apply Z.leb_gt. lia. }
  split.
  - simpl. unfold hgetall, live_entry.
    pose proof (Hdead) as Hd.
    destruct (hashes r' !! peer_key u) as [e'|]; [|done].
    by rewrite (Hd e' eq_refl).
  - intros n peers Hresp q Hq. rewrite get_peers_online_list in Hresp.
    injection Hresp as _ <-. unfold online_list in Hq.
    apply list_elem_of_filter in Hq as [_ Hq]. simpl in Hq.
    apply list_elem_of_omap in Hq as (m & _ & Hq).
    apply hgetall_Some in Hq as (e' & He' & <-).
    apply live_entry_Some in He' as [He' Hl'].
    destruct (Hnamed' _ _ He') as (k' & Hk' & Hu').
    destruct (Hnamed _ _ He) as (k & Hk & Hu).
    rewrite Hu', Hu. intros [= ->].
    rewrite <- Hk in Hk'. rewrite Hk' in He'.
    rewrite (Hdead _ He') in Hl'. done.
Qed.

Lemma heartbeats_do_not_prolong_witness :
  get_peer_info 3601 alice
    (Peer.heartbeat_loop [(60, true); (3540, true)] alice_node (alice_on empty_redis))
    = None.
Proof.
  refine (proj1 (heartbeats_do_not_prolong 0 alice (alice_on empty_redis) alice_record
    [(60, true); (3540, true)] alice_node 3601 _ _ _)).
  - exact (reach_register empty_redis 0 alice_first _ (reach_init _)).
  - vm_compute. reflexivity.
  - simpl. lia.
Defined.

(** ** The clean-up loop *)

(** A round of the clean-up loop, run at [now], deletes from the
    dictionary exactly the records last seen more than 30 minutes before
    and leaves the others as they are; run again at the same instant it
    changes nothing; it never touches Redis. *)
Theorem cleanup_old_peers_round now self :
  (∀ t u,
     get_peer_info t u (cleanup_old_peers now self) =
       match self, get_peer_info t u self with
       | InMemory _, Some p => if decide (1800 < now - last_seen p) then None else Some p
       | _, found => found
       end) ∧
  cleanup_old_peers now (cleanup_old_peers now self) = cleanup_old_peers now self.
Proof.
  destruct self as [r|peers]; [done|]. split.
  - intros t u.
    destruct (cleanup_old_peers_lookup now peers (dict_key u)) as (peers' & -> & Hk).
    simpl. rewrite Hk. by destruct (peers !! dict_key u).
  - destruct (cleanup_old_peers_lookup now peers KNone) as (peers' & Hp' & _).
    rewrite Hp'.
    destruct (cleanup_old_peers_lookup now peers' KNone) as (peers'' & Hp'' & _).
    rewrite Hp''. f_equal. apply map_eq. intros k.
    destruct (cleanup_old_peers_lookup now peers' k) as (m2 & Hm2 & Hk2).
    destruct (cleanup_old_peers_lookup now peers k) as (m1 & Hm1 & Hk1).
    assert (m1 = peers') as -> by congruence.
    assert (m2 = peers'') as -> by congruence.
    rewrite Hk2, Hk1. destruct (peers !! k) as [p|]; [|done].
    destruct (decide (1800 < now - last_seen p)) as [?|Hfresh]; [done|].
    by rewrite decide_False.
Qed.

(** ** The answers of [/heartbeat], [/unregister] and [/peerinfo] *)

Lemma update_peer_status_ok now u st self :
  u ≠ JBool true → truthy u = true →
  (update_peer_status now u st self).2 = Ok ().
Proof.
  intros Hb Ht. destruct self as [r|peers]; [|done].
  destruct (live_entry now (peer_key u) r) as [e|] eqn:He.
  - assert (∃ m, redis_encode u = Ok m) as [m Hm].
    { destruct u as [|[]|?|?]; simpl in *; try done; eauto. }
    by rewrite (update_peer_status_redis_live _ _ _ _ _ _ Hm He).
  - by rewrite update_peer_status_redis_absent.
Qed.

(** For a JSON object, [/heartbeat] and [/unregister] answer 400 and
    leave the store alone when [username] is absent or empty (null, false,
    zero, the empty text), and 200 for every other text or number, whether
    or not a record exists under it. *)
Theorem heartbeat_and_unregister_answers now fields self u :
  u = default JNull (Api.assoc "username" fields) →
  u ≠ JBool true →
  Api.code (Api.heartbeat now (Api.JsonValue (Api.DObj fields)) self).2 =
    (if truthy u then 200 else 400) ∧
  Api.code (Api.unregister now (Api.JsonValue (Api.DObj fields)) self).2 =
    (if truthy u then 200 else 400) ∧
  (truthy u = false →
   (Api.heartbeat now (Api.JsonValue (Api.DObj fields)) self).1 = self ∧
   (Api.unregister now (Api.JsonValue (Api.DObj fields)) self).1 = self).
Proof.
  intros Hu Hb.
  unfold Api.heartbeat, Api.unregister, Api.heartbeat_view, Api.unregister_view,
    Api.get_json, Api.dict_get. rewrite <- Hu.
  destruct (truthy u) eqn:Ht; simpl negb; cbv iota; [|done].
  pose proof (update_peer_status_ok now u "online" self Hb Ht) as Hon.
  pose proof (update_peer_status_ok now u "offline" self Hb Ht) as Hoff.
  destruct (update_peer_status now u "online" self) as [s1 [[]|?]]; [|done].
  destruct (update_peer_status now u "offline" self) as [s2 [[]|?]]; [|done].
  done.
Qed.

Lemma heartbeat_and_unregister_answers_witness :
  Api.code (Api.heartbeat 5 (Api.JsonValue (Api.DObj [("username", JStr "")]))
              (alice_on empty_redis)).2 = 400 ∧
  Api.code (Api.unregister 5 (Api.JsonValue (Api.DObj [("username", JStr "")]))
              (alice_on empty_redis)).2 = 400 ∧
  (truthy (JStr "") = false →
   (Api.heartbeat 5 (Api.JsonValue (Api.DObj [("username", JStr "")]))
      (alice_on empty_redis)).1 = alice_on empty_redis ∧
   (Api.unregister 5 (Api.JsonValue (Api.DObj [("username", JStr "")]))
      (alice_on empty_redis)).1 = alice_on empty_redis).
Proof.
  apply (heartbeat_and_unregister_answers 5 [("username", JStr "")]
           (alice_on empty_redis) (JStr "")).
  - reflexivity.
  - discriminate.
Defined.

Lemma peer_get_peer_info_eq now (name : string) stun :
  Peer.get_peer_info now name stun =
    if decide (name = "") then None else get_peer_info now (JStr name) stun.
Proof.
  unfold Peer.get_peer_info, Api.get_peer_info.
  destruct name as [|c name]; [done|].
  rewrite decide_False by done.
  by destruct (get_peer_info now (JStr (String c name)) stun).
Qed.

(** What a node learns from [/peerinfo] is what the store holds: for a
    non-empty name the client-side lookup returns exactly the record the
    server-side lookup finds, and nothing when there is none; for the empty
    name it returns nothing (the server answers 400).  The store is never
    changed by the request. *)
Theorem peer_lookup_is_server_lookup now (name : string) stun :
  Peer.get_peer_info now name stun =
    (if decide (name = "") then None else get_peer_info now (JStr name) stun) ∧
  (Api.get_peer_info now (Some name) stun).1 = stun ∧
  (Api.code (Api.get_peer_info now (Some name) stun).2 =
     if decide (name = "") then 400
     else match get_peer_info now (JStr name) stun with
          | Some _ => 200
          | None => 404
          end).
Proof.
  split; [apply peer_get_peer_info_eq|].
  unfold Api.get_peer_info. destruct name as [|c name]; [done|].
  rewrite decide_False by done.
  by destruct (get_peer_info now (JStr (String c name)) stun).
Qed.

(** * Further properties of the peer *)

(** ** The listener *)

(** The listener installs a session only with consent: if the table
    changes, the data was a [connect_request], the console answered yes,
    the acceptance was sent on the socket and the socket was not closed.
    Empty data and a message of another type are ignored: no reply, no
    [close].  The listener closes and writes to no socket but the one it
    was given. *)
Theorem listener_needs_consent s data answer ok self :
  let self' := Peer.handle_incoming_connection s data answer ok self in
  (Peer.connections self' ≠ Peer.connections self →
   ∃ m response,
     data = Peer.Object m ∧
     Peer.get "type" JNull m = JStr "connect_request" ∧
     answer = Peer.Line response ∧ Peer.lower response = "y" ∧ ok = true ∧
     Peer.sent self' = (Peer.sent self ++ [(s, Peer.accept_msg self)])%list ∧
     Peer.closes self' = Peer.closes self) ∧
  (data = Peer.Empty ∨
   (∃ m, data = Peer.Object m ∧ Peer.get "type" JNull m ≠ JStr "connect_request") →
   self' = self) ∧
  (∀ x, x ∈ Peer.closes self' → x ∈ Peer.closes self ∨ x = s) ∧
  (∀ x m, (x, m) ∈ Peer.sent self' → (x, m) ∈ Peer.sent self ∨ x = s).
Proof.
  intros self'. unfold self', Peer.handle_incoming_connection.
  split; [|split; [|split]].
  - destruct data as [| |m| |]; try done.
    case_bool_decide as Ht; [|done].
    destruct answer as [response|]; [|done].
    destruct (String.eqb_spec (Peer.lower response) "y") as [Hy|?];
      destruct ok; try done.
    intros _. by exists m, response.
  - intros [->|(m & -> & Hm)]; [done|]. by rewrite bool_decide_eq_false_2.
  - intros x.
    destruct data as [| |m| |]; simpl; try (rewrite elem_of_app, list_elem_of_singleton);
      auto.
    case_bool_decide; [|auto].
    destruct answer as [response|]; simpl;
      [|rewrite elem_of_app, list_elem_of_singleton; auto].
    destruct (String.eqb _ _), ok; simpl;
      try (rewrite elem_of_app, list_elem_of_singleton); auto.
  - intros x m'.
    destruct data as [| |m| |]; simpl; auto.
    case_bool_decide; [|auto].
    destruct answer as [response|]; simpl; auto.
    destruct (String.eqb _ _), ok; simpl; auto;
      rewrite elem_of_app, list_elem_of_singleton; intros [?|[= -> _]]; auto.
Qed.

(** ** The dialer *)

(** The node as a dial leaves it when it gives up, or as it hands the
    accepted socket over to the chat loops.  A dial that gives up (the
    source returns [False]) leaves the table as it was.  The table is
    written only when the reply is an acceptance, and at that moment the
    request has been sent, the socket is stored under the target's name and
    it is not closed.  After a refused connection, an unreadable or empty
    reply or another error the dial has given up (unless a session for the target
    was there already and no socket was opened), and the socket is neither
    stored nor closed.  The dial closes no socket but its own. *)
Theorem dial_outcome now target info s io self :
  let self' := (Peer.connect_to_peer now target info s io self).1 in
  let ok := (Peer.connect_to_peer now target info s io self).2 in
  (ok = false → Peer.connections self' = Peer.connections self) ∧
  (Peer.connections self' ≠ Peer.connections self →
   ∃ m, io = Peer.Reply (Peer.Object m) ∧
        Peer.get "type" JNull m = JStr "connection_accepted" ∧
        Peer.connections self' = <[KStr target := s]> (Peer.connections self) ∧
        Peer.sent self' = (Peer.sent self ++ [(s, Peer.connect_request now self)])%list ∧
        Peer.closes self' = Peer.closes self) ∧
  (io ∈ [Peer.BadPort; Peer.ConnectRefused; Peer.ConnectFails; Peer.SendFails;
         Peer.Reply Peer.Empty; Peer.Reply Peer.Garbled; Peer.Reply Peer.Fails] →
   (ok = false ∨ Peer.connected (JStr target) self = true) ∧
   Peer.connections self' = Peer.connections self ∧
   Peer.closes self' = Peer.closes self) ∧
  (∀ x, x ∈ Peer.closes self' → x ∈ Peer.closes self ∨ x = s).
Proof.
  intros self' ok. unfold self', ok, Peer.connect_to_peer.
  assert (Hin : ∀ x, x ∈ (Peer.closes self ++ [s])%list → x ∈ Peer.closes self ∨ x = s).
  { intros x. rewrite elem_of_app, list_elem_of_singleton. auto. }
  destruct info as [info|]; [|by repeat split; auto].
  destruct (Peer.connected (JStr target) self) eqn:Hc; [by repeat split; auto|].
  destruct io as [| | | | | |[| |m| |]]; simpl;
    try case_bool_decide; simpl;
    (split; [|split; [|split]]); auto; try done;
    try (intros Hio; exfalso;
         repeat (apply elem_of_cons in Hio as [?|Hio]; [done|]);
         by apply elem_of_nil in Hio).
  intros _. by exists m.
Qed.

(** Dialing a name the registry does not hold fails at once: no socket is
    opened, nothing is sent and the node is as it was.  So does dialing
    the empty name. *)
Theorem dial_unknown_name now target stun s io self :
  target = "" ∨ get_peer_info now (JStr target) stun = None →
  Peer.connect_to_peer now target (Peer.get_peer_info now target stun) s io self =
    (self, false).
Proof.
  intros Hnone. rewrite peer_get_peer_info_eq.
  destruct (decide (target = "")) as [|Hne]; [done|].
  destruct Hnone as [Hempty | ->]; done.
Qed.

Lemma dial_unknown_name_witness :
  Peer.connect_to_peer 0 "bob" (Peer.get_peer_info 0 "bob" (alice_on empty_redis))
    3%nat (Peer.Reply Peer.Empty) carol_node = (carol_node, false).
Proof.
  apply (dial_unknown_name 0 "bob" (alice_on empty_redis)).
  right. vm_compute. reflexivity.
Defined.

(** ** The chat loops, end to end *)

Lemma send_messages_app name s turns1 turns2 self self1 :
  Peer.send_messages name s turns1 self = (self1, Peer.Running) →
  Peer.send_messages name s (turns1 ++ turns2) self =
    Peer.send_messages name s turns2 self1.
Proof.
  revert self. induction turns1 as [|[now typed ok] turns1 IH]; intros self; simpl.
  - destruct (_ && _) eqn:Hc; [|done]. intros [= <-].
    destruct turns2; simpl; by rewrite Hc.
  - destruct (_ && _); [|done].
    destruct typed as [message|]; [|done].
    destruct (String.eqb _ _); [by destruct ok|].
    destruct ok; [apply IH|done].
Qed.

Lemma receive_messages_app name s events1 events2 self self1 :
  Peer.receive_messages name s events1 self = (self1, Peer.Running) →
  Peer.receive_messages name s (events1 ++ events2) self =
    Peer.receive_messages name s events2 self1.
Proof.
  revert self. induction events1 as [|ev events1 IH]; intros self; simpl.
  - destruct (_ && _) eqn:Hc; [|done]. intros [= <-].
    destruct events2; simpl; by rewrite Hc.
  - destruct (_ && _); [|done].
    destruct ev as [| |m| |]; try done.
    destruct (bool_decide (Peer.get "type" JNull m = JStr "message")); [apply IH|].
    destruct (bool_decide (Peer.get "type" JNull m = JStr "disconnect")); [done|apply IH].
Qed.

Lemma snd_pair_map {A B} (x : A) (l : list B) : (map (pair x) l).*2 = l.
Proof. induction l as [|y l IH]; [done|]. simpl. f_equal. exact IH. Qed.

Lemma send_lines name s lines a :
  Peer.is_running a = true → Peer.connected name a = true →
  Forall (λ l, Peer.lower l.2 ≠ "/exit") lines →
  ∃ a',
    Peer.send_messages name s (typed_lines lines) a = (a', Peer.Running) ∧
    Peer.sent a' = (Peer.sent a ++ map (pair s) (wire_lines a lines))%list ∧
    Peer.connections a' = Peer.connections a ∧
    Peer.closes a' = Peer.closes a ∧
    Peer.is_running a' = Peer.is_running a ∧
    Peer.username a' = Peer.username a ∧
    Peer.printed a' = Peer.printed a.
Proof.
  intros Hrun Hconn Hall. revert a Hrun Hconn.
  induction Hall as [|[t msg] lines Hne _ IH]; intros a Hrun Hconn.
  - exists a. simpl. rewrite Hrun, Hconn, app_nil_r. done.
  - simpl in Hne. simpl. rewrite Hrun, Hconn. simpl.
    apply String.eqb_neq in Hne. rewrite Hne.
    destruct (IH (Peer.send s (Peer.text_msg t msg a) a) Hrun Hconn)
      as (a' & Hsend & Hsent & Hc & Hcl & Hr & Hu & Hp).
    exists a'. split; [done|]. simpl in *.
    repeat split; try congruence.
    rewrite Hsent, <- app_assoc. done.
Qed.

Lemma receive_lines name s from lines b :
  Peer.is_running b = true → Peer.connected name b = true →
  ∃ b',
    Peer.receive_messages name s (map Peer.Object (wire_lines from lines)) b =
      (b', Peer.Running) ∧
    Peer.printed b' = (Peer.printed b ++ shown_lines from lines)%list ∧
    Peer.connections b' = Peer.connections b ∧
    Peer.closes b' = Peer.closes b ∧
    Peer.sent b' = Peer.sent b ∧
    Peer.is_running b' = Peer.is_running b.
Proof.
  revert b. induction lines as [|[t msg] lines IH]; intros b Hrun Hconn.
  - exists b. simpl. rewrite Hrun, Hconn, app_nil_r. done.
  - simpl. rewrite Hrun, Hconn. simpl.
    destruct (IH (Peer.print_chat (JNum t, JStr (Peer.username from), JStr msg) b)
                Hrun Hconn) as (b' & Hrecv & Hpr & Hc & Hcl & Hs & Hr).
    exists b'. split; [done|]. simpl in *.
    repeat split; try congruence.
    rewrite Hpr, <- app_assoc. done.
Qed.

(** What is typed on one side is printed on the other.  [a] and [b] are in
    session.  The lines typed at [a], none of them the exit command and
    each short enough for its message to fit in one read of 1024 bytes, go
    on the wire one message each, in order; when every read of [b] yields
    one of these messages, whole and alone, they are printed in that order
    with the same text, the sender's username and the instant of typing.
    Both loops keep running, both tables stay as they are and no socket is
    closed. *)
Theorem chat_round_trip name_b sa a name_a sb b lines :
  Peer.is_running a = true → Peer.connected name_b a = true →
  Peer.is_running b = true → Peer.connected name_a b = true →
  Forall (λ l, Peer.lower l.2 ≠ "/exit") lines →
  Forall (λ l, (text_msg_bytes a l.2 ≤ 1024)%nat) lines →
  ∃ a' b',
    Peer.send_messages name_b sa (typed_lines lines) a = (a', Peer.Running) ∧
    Peer.sent a' = (Peer.sent a ++ map (pair sa) (wire_lines a lines))%list ∧
    Peer.receive_messages name_a sb
      (map Peer.Object (drop (length (Peer.sent a)) (Peer.sent a')).*2) b =
      (b', Peer.Running) ∧
    Peer.printed b' = (Peer.printed b ++ shown_lines a lines)%list ∧
    Peer.connections a' = Peer.connections a ∧ Peer.closes a' = Peer.closes a ∧
    Peer.connections b' = Peer.connections b ∧ Peer.closes b' = Peer.closes b.
Proof.
  intros Hra Hca Hrb Hcb Hall _.
  destruct (send_lines name_b sa lines a Hra Hca Hall)
    as (a' & Hsend & Hsent & Hc & Hcl & _).
  destruct (receive_lines name_a sb a lines b Hrb Hcb)
    as (b' & Hrecv & Hpr & Hc' & Hcl' & _).
  exists a', b'. rewrite Hsent, drop_app_length.
  assert ((map (pair sa) (wire_lines a lines)).*2 = wire_lines a lines) as ->.
  { apply snd_pair_map. }
  done.
Qed.

Lemma chat_round_trip_witness :
  ∃ a' b',
    Peer.send_messages (JStr "bob") 7%nat (typed_lines [(5, "hi"); (6, "there")])
      alice_node = (a', Peer.Running) ∧
    Peer.sent a' =
      (Peer.sent alice_node ++
       map (pair 7%nat) (wire_lines alice_node [(5, "hi"); (6, "there")]))%list ∧
    Peer.receive_messages (JStr "alice") 9%nat
      (map Peer.Object (drop (length (Peer.sent alice_node)) (Peer.sent a')).*2)
      (Peer.set_connection (JStr "alice") 9%nat bob_node) = (b', Peer.Running) ∧
    Peer.printed b' =
      (Peer.printed (Peer.set_connection (JStr "alice") 9%nat bob_node) ++
       shown_lines alice_node [(5, "hi"); (6, "there")])%list ∧
    Peer.connections a' = Peer.connections alice_node ∧
    Peer.closes a' = Peer.closes alice_node ∧
    Peer.connections b' =
      Peer.connections (Peer.set_connection (JStr "alice") 9%nat bob_node) ∧
    Peer.closes b' = Peer.closes (Peer.set_connection (JStr "alice") 9%nat bob_node).
Proof.
  apply (chat_round_trip (JStr "bob") 7%nat alice_node (JStr "alice") 9%nat
           (Peer.set_connection (JStr "alice") 9%nat bob_node)
           [(5, "hi"); (6, "there")]); try reflexivity.
  - repeat constructor; discriminate.
  - repeat constructor; vm_compute; lia.
Defined.

(** Ending a session.  After lines short enough for each message to fit in
    one read of 1024 bytes, the exit command (in any case) typed at [a]
    sends the disconnect message, removes the session from the table of
    [a] and closes its socket; when every read of [b] yields one of the
    messages [a] sent, whole and alone, [b] prints the lines, then removes
    its session and closes its socket too.  Both loops have stopped. *)
Theorem exit_ends_both_sides name_b sa a name_a sb b lines now command :
  Peer.is_running a = true → Peer.connected name_b a = true →
  Peer.is_running b = true → Peer.connected name_a b = true →
  Forall (λ l, Peer.lower l.2 ≠ "/exit") lines →
  Forall (λ l, (text_msg_bytes a l.2 ≤ 1024)%nat) lines →
  (disconnect_msg_bytes a ≤ 1024)%nat →
  Peer.lower command = "/exit" →
  ∃ a' b',
    Peer.send_messages name_b sa
      (typed_lines lines ++ [Peer.Turn now (Peer.Line command) true]) a =
      (a', Peer.Stopped) ∧
    Peer.sent a' =
      (Peer.sent a ++ map (pair sa) (wire_lines a lines ++ [Peer.disconnect_msg now a]))%list ∧
    Peer.connected name_b a' = false ∧
    Peer.closes a' = (Peer.closes a ++ [sa])%list ∧
    Peer.receive_messages name_a sb
      (map Peer.Object (wire_lines a lines ++ [Peer.disconnect_msg now a])) b =
      (b', Peer.Stopped) ∧
    Peer.printed b' = (Peer.printed b ++ shown_lines a lines)%list ∧
    Peer.connected name_a b' = false ∧
    Peer.closes b' = (Peer.closes b ++ [sb])%list.
Proof.
  intros Hra Hca Hrb Hcb Hall _ _ Hexit.
  destruct (send_lines name_b sa lines a Hra Hca Hall)
    as (a1 & Hsend & Hsent & Hc & Hcl & Hr & Hu & _).
  destruct (receive_lines name_a sb a lines b Hrb Hcb)
    as (b1 & Hrecv & Hpr & Hc' & Hcl' & _ & Hr').
  assert (Hca1 : Peer.connected name_b a1 = true).
  { unfold Peer.connected in *. by rewrite Hc. }
  assert (Hcb1 : Peer.connected name_a b1 = true).
  { unfold Peer.connected in *. by rewrite Hc'. }
  destruct (send_messages_exit name_b sa now command [] a1) as
    (a' & Hstop & Hgone & Hclosed & Hlast); [congruence|done|done|].
  rewrite (send_messages_app _ _ _ _ _ _ Hsend), Hstop.
  rewrite (map_app Peer.Object), (receive_messages_app _ _ _ _ _ _ Hrecv).
  eexists a', _. split; [done|].
  split.
  { rewrite Hlast, Hsent, map_app. simpl. rewrite <- app_assoc.
    unfold Peer.disconnect_msg. by rewrite Hu. }
  split; [done|]. split; [by rewrite Hclosed, Hcl|].
  simpl. rewrite <- Hr' in Hrb. rewrite Hrb, Hcb1. simpl.
  split; [reflexivity|].
  unfold Peer.clean_up. rewrite Hcb1. simpl.
  split; [done|]. split; [|by rewrite Hcl'].
  apply connected_false. simpl. apply lookup_delete_eq.
Qed.

Lemma exit_ends_both_sides_witness :
  ∃ a' b',
    Peer.send_messages (JStr "bob") 7%nat
      (typed_lines [(5, "hi")] ++ [Peer.Turn 9 (Peer.Line "/EXIT") true]) alice_node =
      (a', Peer.Stopped) ∧
    Peer.sent a' =
      (Peer.sent alice_node ++
       map (pair 7%nat)
         (wire_lines alice_node [(5, "hi")] ++ [Peer.disconnect_msg 9 alice_node]))%list ∧
    Peer.connected (JStr "bob") a' = false ∧
    Peer.closes a' = (Peer.closes alice_node ++ [7%nat])%list ∧
    Peer.receive_messages (JStr "alice") 9%nat
      (map Peer.Object
         (wire_lines alice_node [(5, "hi")] ++ [Peer.disconnect_msg 9 alice_node]))
      (Peer.set_connection (JStr "alice") 9%nat bob_node) = (b', Peer.Stopped) ∧
    Peer.printed b' =
      (Peer.printed (Peer.set_connection (JStr "alice") 9%nat bob_node) ++
       shown_lines alice_node [(5, "hi")])%list ∧
    Peer.connected (JStr "alice") b' = false ∧
    Peer.closes b' =
      (Peer.closes (Peer.set_connection (JStr "alice") 9%nat bob_node) ++ [9%nat])%list.
Proof.
  apply (exit_ends_both_sides (JStr "bob") 7%nat alice_node (JStr "alice") 9%nat
           (Peer.set_connection (JStr "alice") 9%nat bob_node) [(5, "hi")] 9 "/EXIT");
    try reflexivity.
  - repeat constructor; discriminate.
  - repeat constructor; vm_compute; lia.
  - vm_compute; lia.
Defined.

(** ** What the loops touch *)

(** The inbound loop never sends and never changes [is_running]; it only
    adds to what is printed.  While it runs, the table and the sockets are
    as they were.  When it stops, for whatever reason, the entry of its
    peer's name is out of the table, whichever socket that entry was bound
    to, every other entry is in place, and [close] was called once, on the
    socket of the loop. *)
Theorem inbound_loop_frame name s events self :
  let self' := (Peer.receive_messages name s events self).1 in
  Peer.sent self' = Peer.sent self ∧
  Peer.is_running self' = Peer.is_running self ∧
  (∃ lines, Peer.printed self' = (Peer.printed self ++ lines)%list) ∧
  match (Peer.receive_messages name s events self).2 with
  | Peer.Running =>
      Peer.connections self' = Peer.connections self ∧
      Peer.closes self' = Peer.closes self
  | Peer.Stopped =>
      Peer.connections self' = delete (dict_key name) (Peer.connections self) ∧
      Peer.closes self' = (Peer.closes self ++ [s])%list
  end.
Proof.
  assert (Hclean : ∀ self0,
    Peer.sent (Peer.clean_up name s self0) = Peer.sent self0 ∧
    Peer.is_running (Peer.clean_up name s self0) = Peer.is_running self0 ∧
    (∃ lines, Peer.printed (Peer.clean_up name s self0) =
                (Peer.printed self0 ++ lines)%list) ∧
    Peer.connections (Peer.clean_up name s self0) =
      delete (dict_key name) (Peer.connections self0) ∧
    Peer.closes (Peer.clean_up name s self0) = (Peer.closes self0 ++ [s])%list).
  { intros self0. unfold Peer.clean_up.
    destruct (Peer.connected name self0) eqn:Hc; simpl;
      (split; [done|]); (split; [done|]);
      (split; [by exists []; rewrite app_nil_r|]); (split; [|done]); [done|].
    apply connected_false in Hc. by rewrite delete_id. }
  revert self. induction events as [|ev events IH]; intros self; simpl.
  - destruct (_ && _); simpl; [|apply Hclean].
    split; [done|]. split; [done|]. split; [|done].
    exists []. by rewrite app_nil_r.
  - destruct (_ && _); simpl; [|apply Hclean].
    destruct ev as [| |m| |]; simpl; try apply Hclean.
    destruct (bool_decide (Peer.get "type" JNull m = JStr "message")).
    + destruct (IH (Peer.print_chat
                      (Peer.get "timestamp" (JStr "") m,
                       Peer.get "from" (JStr "Unknown") m,
                       Peer.get "content" (JStr "") m) self))
        as (Hs & Hr & [lines Hp] & Hrest).
      split; [done|]. split; [done|]. split; [|done].
      eexists. rewrite Hp. simpl. by rewrite <- app_assoc.
    + destruct (bool_decide (Peer.get "type" JNull m = JStr "disconnect")); simpl.
      * apply Hclean.
      * apply IH.
Qed.

(** The outbound loop prints nothing, never changes [is_running] and
    writes to no socket but its own.  It closes its socket and removes the
    entry only together, and only after the disconnect message has gone
    out as the last thing sent; otherwise table and sockets are as they
    were. *)
Theorem outbound_loop_frame name s turns self :
  let self' := (Peer.send_messages name s turns self).1 in
  Peer.printed self' = Peer.printed self ∧
  Peer.is_running self' = Peer.is_running self ∧
  (∀ x m, (x, m) ∈ Peer.sent self' → (x, m) ∈ Peer.sent self ∨ x = s) ∧
  ((Peer.connections self' = Peer.connections self ∧
    Peer.closes self' = Peer.closes self) ∨
   ((Peer.send_messages name s turns self).2 = Peer.Stopped ∧
    Peer.connections self' = delete (dict_key name) (Peer.connections self) ∧
    Peer.closes self' = (Peer.closes self ++ [s])%list ∧
    ∃ now, last (Peer.sent self') = Some (s, Peer.disconnect_msg now self))).
Proof.
  revert self. induction turns as [|[now typed ok] turns IH]; intros self; simpl.
  - destruct (_ && _); simpl; repeat split; auto.
  - destruct (Peer.is_running self && Peer.connected name self) eqn:Hc; simpl;
      [|repeat split; auto].
    apply andb_true_iff in Hc as [_ Hc].
    destruct typed as [message|]; simpl; [|repeat split; auto].
    destruct (String.eqb _ _); destruct ok; simpl; try (repeat split; auto; fail).
    + assert (Peer.connected name (Peer.send s (Peer.disconnect_msg now self) self)
              = true) as -> by done.
      simpl. split; [done|]. split; [done|]. split.
      * intros x m. rewrite elem_of_app, list_elem_of_singleton.
        intros [?|[= -> _]]; auto.
      * right. split; [done|]. split; [done|]. split; [done|].
        exists now. by rewrite last_snoc.
    + destruct (IH (Peer.send s (Peer.text_msg now message self) self))
        as (Hp & Hr & Hs & Hrest).
      split; [done|]. split; [done|]. split.
      * intros x m Hin. destruct (Hs x m Hin) as [Hold|?]; [|auto].
        simpl in Hold. apply elem_of_app in Hold as [?|Hnew]; [auto|].
        apply list_elem_of_singleton in Hnew as [= -> _]. auto.
      * destruct Hrest as [?|(Hstop & Hc' & Hcl & now' & Hlast)]; [by left|].
        right. split; [done|]. split; [done|]. split; [done|]. by exists now'.
Qed.

(** ** Starting and stopping a node *)

(** A registration, of whatever kind, leaves a record under the name. *)
Lemma register_leaves_a_record now fields self u i q :
  Api.assoc "username" fields = Some u →
  Api.assoc "ip_address" fields = Some i →
  Api.assoc "port" fields = Some q →
  accepts self u i q →
  is_Some (get_peer_info now u (Api.register now (Api.JsonValue (Api.DObj fields)) self).1).
Proof.
  intros Hu Hi Hq Hacc.
  destruct (get_peer_info now u self) as [p|] eqn:Hg.
  - pose proof (touches_keeps _ _ _
      (register_touches now (Api.JsonValue (Api.DObj fields)) self)) as Hk.
    destruct (keeps_lookup _ _ _ _ _ Hk Hg) as ((p' & Hp' & _) & _). eauto.
  - rewrite (register_new_state _ _ _ _ _ _ Hu Hi Hq Hacc Hg).
    destruct self as [r|peers]; simpl.
    + unfold hgetall. rewrite live_entry_insert_eq; [eauto|]. apply Z.leb_le. lia.
    + rewrite lookup_insert_eq. eauto.
Qed.

(** [register_with_stun] against a server that answers, with a listener
    that binds: it reports success whatever the store holds, the heartbeat
    thread is started, and the store has a record under the node's
    username.  When the listener is needed and cannot be started, or the
    server cannot be reached, it reports failure, the store is untouched
    and no heartbeat thread is started by the call. *)
Theorem register_with_stun_outcome now s assigned stun self :
  (let '(self', server', ok) :=
     Peer.register_with_stun now (Peer.Bound s assigned) (Some stun) self in
   ok = true ∧ Peer.heartbeat_thread self' = true ∧
   ∃ stun', server' = Some stun' ∧
     is_Some (get_peer_info now (JStr (Peer.username (Peer.core self))) stun')) ∧
  (∀ io, truthy (Peer.port_value self) = false →
     io = Peer.SocketFails ∨ io = Peer.BindFails s →
     let '(self', server', ok) :=
       Peer.register_with_stun now io (Some stun) self in
     ok = false ∧ server' = Some stun ∧
     Peer.heartbeat_thread self' = Peer.heartbeat_thread self) ∧
  (∀ io,
     let '(self', server', ok) := Peer.register_with_stun now io None self in
     ok = false ∧ server' = None ∧
     Peer.heartbeat_thread self' = Peer.heartbeat_thread self).
Proof.
  split; [|split].
  - unfold Peer.register_with_stun.
    set (self1 := (if negb (truthy (Peer.port_value self))
                   then Peer.start_tcp_server (Peer.Bound s assigned) self
                   else (self, true))).
    assert (Hs1 : self1.2 = true ∧
                  Peer.username (Peer.core self1.1) = Peer.username (Peer.core self) ∧
                  encodable (Peer.port_value self1.1)).
    { unfold self1. destruct (truthy (Peer.port_value self)) eqn:Ht; simpl.
      - repeat split. unfold Peer.port_value in *.
        by destruct (Peer.peer_port self).
      - done. }
    destruct self1 as [h started]. simpl in Hs1. destruct Hs1 as (-> & Hname & Hport).
    simpl negb. cbv iota.
    set (fields := [("username", JStr (Peer.username (Peer.core h)));
                    ("ip_address", JStr (Peer.local_ip h));
                    ("port", Peer.port_value h)]).
    assert (Hacc : accepts stun (JStr (Peer.username (Peer.core h)))
                     (JStr (Peer.local_ip h)) (Peer.port_value h)).
    { by destruct stun. }
    pose proof (register_code_200_or_201 now fields stun _ _ _
                  eq_refl eq_refl eq_refl Hacc) as Hcode.
    pose proof (register_leaves_a_record now fields stun _ _ _
                  eq_refl eq_refl eq_refl Hacc) as Hrec.
    destruct (Api.register now (Api.JsonValue (Api.DObj fields)) stun)
      as [stun' response]. simpl in Hcode, Hrec.
    rewrite bool_decide_eq_true_2.
    + repeat split. rewrite <- Hname. eauto.
    + rewrite Hcode. destruct (get_peer_info now _ stun); repeat constructor.
  - intros io Ht [->| ->]; unfold Peer.register_with_stun; rewrite Ht; done.
  - intros io. unfold Peer.register_with_stun.
    destruct (negb (truthy (Peer.port_value self))); [|done].
    by destruct io.
Qed.

(** Shutting a node down: the table is empty, the node no longer runs,
    every socket that was in the table and the listening socket have been
    closed and no other, and from then on each chat loop stops at its next
    turn without sending anything.  This holds whether or not the registry
    could be reached. *)
Theorem shutdown_closes_everything now server self :
  let self' := Peer.core (Peer.unregister now server self).1 in
  Peer.is_running self' = false ∧
  Peer.connections self' = ∅ ∧
  (∀ x, x ∈ Peer.closes self' ↔
        x ∈ Peer.closes (Peer.core self) ∨
        (∃ name, Peer.connections (Peer.core self) !! name = Some x) ∨
        Peer.tcp_server self = Some x) ∧
  (∀ name s turns,
     Peer.send_messages name s turns self' = (self', Peer.Stopped)) ∧
  (∀ name s events,
     (Peer.receive_messages name s events self').2 = Peer.Stopped ∧
     Peer.sent (Peer.receive_messages name s events self').1 = Peer.sent (Peer.core self)).
Proof.
  intros self'. unfold self', Peer.unregister. simpl.
  split; [done|]. split; [done|]. split; [|split].
  - intros x. rewrite !elem_of_app. split.
    + intros [?|[Hin|Hin]]; [auto| |].
      * right; left. apply list_elem_of_fmap in Hin as ([name y] & -> & Hin).
        apply elem_of_map_to_list in Hin. eauto.
      * destruct (Peer.tcp_server self) as [l|]; [|by apply elem_of_nil in Hin].
        apply list_elem_of_singleton in Hin as ->. auto.
    + intros [?|[[name Hin]|Hl]]; [auto| |].
      * right; left. apply list_elem_of_fmap. exists (name, x). split; [done|].
        by apply elem_of_map_to_list.
      * right; right. rewrite Hl. by apply list_elem_of_singleton.
  - intros name s turns. by destruct turns.
  - intros name s events. by destruct events.
Qed.

(** ** The list a node sees *)

Lemma get_online_peers_elem now stun self p :
  p ∈ Peer.get_online_peers now (Some stun) self ↔
  p ∈ online_list now stun ∧ username p ≠ JStr (Peer.username self).
Proof.
  unfold Peer.get_online_peers. rewrite get_peers_online_list. simpl.
  rewrite list_elem_of_filter. tauto.
Qed.

(** The list of online peers as a node sees it never holds a record of
    its own username, only online records, and is empty when the registry
    cannot be reached.  A node that has just registered under a new name
    is on the list of every node of another name for as long as the store
    holds its record. *)
Theorem registered_node_is_seen_by_others now fields stun (name : string) i q now' :
  Api.assoc "username" fields = Some (JStr name) →
  Api.assoc "ip_address" fields = Some i →
  Api.assoc "port" fields = Some q →
  accepts stun (JStr name) i q →
  get_peer_info now (JStr name) stun = None →
  holds_at stun now now' →
  let stun' := (Api.register now (Api.JsonValue (Api.DObj fields)) stun).1 in
  (∀ other, Peer.username other ≠ name →
     stored_as stun (PeerInfo (JStr name) i q "online" now now) ∈
       Peer.get_online_peers now' (Some stun') other) ∧
  (∀ self p, p ∈ Peer.get_online_peers now' (Some stun') self →
     username p ≠ JStr (Peer.username self) ∧ status p = "online") ∧
  (∀ self, Peer.get_online_peers now' None self = []).
Proof.
  intros Hu Hi Hq Hacc Hnone Hlive stun'. split; [|split; [|done]].
  - intros other Hother. apply get_online_peers_elem. split.
    + by apply register_new_in_online_list.
    + destruct stun; simpl; congruence.
  - intros self p [Hin Hp]%get_online_peers_elem. split; [done|].
    unfold online_list in Hin. by apply list_elem_of_filter in Hin as [? _].
Qed.

Lemma registered_node_is_seen_by_others_witness :
  stored_as empty_redis (PeerInfo (JStr "alice") (JStr "10.0.0.1") (JStr "9000") "online" 0 0)
    ∈ Peer.get_online_peers 1000 (Some (Api.register 0 alice_first empty_redis).1) bob_node.
Proof.
  refine (proj1 (registered_node_is_seen_by_others 0
    [("username", alice); ("ip_address", JStr "10.0.0.1"); ("port", JStr "9000")]
    empty_redis "alice" (JStr "10.0.0.1") (JStr "9000") 1000
    eq_refl eq_refl eq_refl _ eq_refl _) bob_node _).
  - simpl. tauto.
  - simpl. lia.
  - discriminate.
Defined.
